(** * The embedding service of mind-mentor

    A shallow embedding of [src/server/services/transformersEmbeddings.js]:
    the class [TransformersEmbeddings], a wrapper around one lazily loaded
    feature-extraction pipeline.

    Two views of the same methods are developed.

    - [Sequential]: every method is a function in a state-and-exception
      monad over the fields of [this].  A call is awaited to its end before
      the next one is made, and every external operation (the model load,
      an inference) settles.  Within one [Promise.all] the order in which
      the per-text computations settle is a parameter.
    - [EventLoop]: the segments of [initialize] and [getEmbeddingDimension]
      between two [await]s are the steps of a transition system in which
      several calls are in flight at once, as on the JavaScript event loop.

    What the methods write to the console is left out. *)

From Stdlib Require Import String Ascii List PrimFloat Lia.
From stdpp Require Import base list strings.
From Equations Require Import Equations.

(** ** JavaScript values the service handles *)

(** An error object: its class name and its [message]. *)
Record JsError : Type := mkJsError { error_name : string; message : string }.

(** [new Error(msg)] *)
Definition new_Error (msg : string) : JsError :=
  {| error_name := "Error"; message := msg |}.

(** The errors the [catch] blocks throw, each around the [message] of the
    error it caught. *)
Definition initialization_error (error : JsError) : JsError :=
  new_Error ("Failed to initialize embedding model: " +:+ message error).
Definition text_error (error : JsError) : JsError :=
  new_Error ("Failed to embed text: " +:+ message error).
Definition documents_error (error : JsError) : JsError :=
  new_Error ("Failed to generate embeddings: " +:+ message error).
Definition query_error (error : JsError) : JsError :=
  new_Error ("Failed to generate query embedding: " +:+ message error).
Definition dimension_error (error : JsError) : JsError :=
  new_Error ("Failed to get embedding dimension: " +:+ message error).

(** The [TypeError] the runtime raises by itself. *)
Definition TypeError (msg : string) : JsError :=
  {| error_name := "TypeError"; message := msg |}.

(** How an asynchronous call ends: its promise is fulfilled with a value or
    rejected with an error. *)
Inductive Outcome (A : Type) : Type :=
| Fulfilled (a : A)
| Rejected (e : JsError).
Arguments Fulfilled {A} a.
Arguments Rejected {A} e.

(** The tensor a pipeline call resolves to; only [result.data] is read. *)
Record Tensor : Type := mkTensor { data : list float }.

(** An embedding vector: [Array.from(result.data)]. *)
Definition Vec : Type := list float.

(** The loaded pipeline, [this.model]: called on a text (with the fixed
    options [pooling: 'mean', normalize: true]) it resolves to a tensor or
    rejects. *)
Definition Model : Type := string -> Outcome Tensor.

(** The argument of [embedDocuments], [string|string[]]. *)
Inductive TextInput : Type :=
| Single (text : string)
| Many (texts : list string).

(** [Array.isArray(texts) ? texts : [texts]] *)
Definition toTextArray (texts : TextInput) : list string :=
  match texts with
  | Many arr => arr
  | Single text => [text]
  end.

(** [arr.slice(from, to)] for [0 <= from <= to]: indices are clipped to the
    array. *)
Definition slice {A} (arr : list A) (from to : nat) : list A :=
  take (to - from) (drop from arr).

(** The records the two reporting methods return.  A key that the object
    literal does not have reads as [undefined], here [None]. *)
Module HealthRecord.
Record t : Type := mk {
  status : string;
  model : option string;
  dimension : option nat;
  initialized : option bool;
  error : option string;
  timestamp : string }.
End HealthRecord.

Module ServiceInfo.
Record t : Type := mk {
  name : string;
  model : string;
  status : string;
  dimension : option nat;
  backend : option string;
  cost : option string;
  rateLimit : option string;
  error : option string }.
End ServiceInfo.

(** ** [Promise.all] *)

(** The computations of a [Promise.all] have the outcomes [outs]; they
    settle in the order [order] (an index out of range names no computation,
    a repeated index settles nothing anew).  A fulfilled computation writes
    its value into its own slot; the first rejected one rejects the whole. *)
Fixpoint settle_all {V} (outs : list (Outcome V)) (order : list nat)
    (slots : list (option V)) : Outcome (list (option V)) :=
  match order with
  | [] => Fulfilled slots
  | i :: order' =>
      match outs !! i with
      | None => settle_all outs order' slots
      | Some (Rejected e) => Rejected e
      | Some (Fulfilled v) => settle_all outs order' (<[i := Some v]> slots)
      end
  end.

(** The values of the slots that are filled, in index order. *)
Fixpoint filled {V} (slots : list (option V)) : list V :=
  match slots with
  | [] => []
  | Some v :: slots' => v :: filled slots'
  | None :: slots' => filled slots'
  end.

(** [await Promise.all(promises)]: the computations named by [first] settle
    first, in that order, every other one after them. *)
Definition Promise_all {V} (outs : list (Outcome V)) (first : list nat)
    : Outcome (list V) :=
  match settle_all outs (first ++ seq 0 (length outs))
          (replicate (length outs) None) with
  | Fulfilled slots => Fulfilled (filled slots)
  | Rejected e => Rejected e
  end.

(** A slot holds the value its own computation was fulfilled with. *)
Definition slots_agree {V} (outs : list (Outcome V))
    (slots : list (option V)) : Prop :=
  length slots = length outs /\
  forall j v, slots !! j = Some (Some v) -> outs !! j = Some (Fulfilled v).

(** ** The fields of [this] *)

Record Service (P : Type) : Type := mkService {
  model : option Model;
  modelName : string;
  isInitialized : bool;
  (** [null], or the promise [_initializeModel()] returned; [P] is how a
      promise is represented *)
  initializationPromise : option P;
  _cachedDimension : option nat;
  (** instrumentation, not a field of the class: how many times
      [pipeline(...)] was called, and the texts [this.model] was called on *)
  loads : nat;
  inferred : list string }.
Arguments mkService {P}.
Arguments model {P}.
Arguments modelName {P}.
Arguments isInitialized {P}.
Arguments initializationPromise {P}.
Arguments _cachedDimension {P}.
Arguments loads {P}.
Arguments inferred {P}.

Section Setters.
Context {P : Type}.

Definition set_model (m : option Model) (s : Service P) : Service P :=
  mkService m (modelName s) (isInitialized s) (initializationPromise s)
    (_cachedDimension s) (loads s) (inferred s).
Definition set_isInitialized (b : bool) (s : Service P) : Service P :=
  mkService (model s) (modelName s) b (initializationPromise s)
    (_cachedDimension s) (loads s) (inferred s).
Definition set_initializationPromise (p : option P) (s : Service P)
    : Service P :=
  mkService (model s) (modelName s) (isInitialized s) p
    (_cachedDimension s) (loads s) (inferred s).
Definition set_cachedDimension (d : option nat) (s : Service P)
    : Service P :=
  mkService (model s) (modelName s) (isInitialized s)
    (initializationPromise s) d (loads s) (inferred s).
Definition set_loads (n : nat) (s : Service P) : Service P :=
  mkService (model s) (modelName s) (isInitialized s)
    (initializationPromise s) (_cachedDimension s) n (inferred s).
Definition set_inferred (l : list string) (s : Service P) : Service P :=
  mkService (model s) (modelName s) (isInitialized s)
    (initializationPromise s) (_cachedDimension s) (loads s) l.
End Setters.

(** [process.env.EMBEDDING_MODEL || 'Xenova/all-MiniLM-L6-v2']: an unset or
    empty variable is falsy. *)
Definition configuredModelName (EMBEDDING_MODEL : option string) : string :=
  match EMBEDDING_MODEL with
  | Some (String c rest) => String c rest
  | _ => "Xenova/all-MiniLM-L6-v2"
  end.

(** [new TransformersEmbeddings()] *)
Definition constructor {P} (EMBEDDING_MODEL : option string) : Service P :=
  {| model := None;
     modelName := configuredModelName EMBEDDING_MODEL;
     isInitialized := false;
     initializationPromise := None;
     _cachedDimension := None;
     loads := 0;
     inferred := [] |}.

(** [if (this._cachedDimension)]: [null] and [0] are falsy. *)
Definition truthy (d : option nat) : bool :=
  match d with
  | Some (S _) => true
  | _ => false
  end.

Definition batchSize : nat := 8.

(** The arrow function of [batch.map]: one call of [this.model] and its
    [try]/[catch]. *)
Definition embed_text (this_model : option Model) (text : string)
    : Outcome Vec :=
  let called :=
    match this_model with
    | Some m => m text
    | None => Rejected (TypeError "this.model is not a function")
    end in
  match called with
  | Fulfilled result => Fulfilled (data result)
  | Rejected error => Rejected (text_error error)
  end.

(** ** The world outside the service *)

Record World : Type := mkWorld {
  (** what the [n]-th call [pipeline('feature-extraction', name, ...)]
      settles to *)
  pipeline : nat -> string -> Outcome Model;
  (** which computations of the batch that starts at index [i] settle
      first *)
  completion : nat -> list nat;
  (** [new Date().toISOString()] *)
  now : string }.

(** ** The methods, one call at a time *)

Module Sequential.

(** A promise is represented by the outcome it settles to. *)
Abbreviation This := (Service (Outcome unit)).

(** A method body: it reads and writes the fields of [this] and returns or
    throws.  What was written before a [throw] stays written. *)
Definition M (A : Type) : Type := This -> Outcome A * This.

Definition ret {A} (a : A) : M A := fun s => (Fulfilled a, s).

Definition throw {A} (e : JsError) : M A := fun s => (Rejected e, s).

Definition bind {A B} (m : M A) (k : A -> M B) : M B :=
  fun s =>
    match m s with
    | (Fulfilled a, s') => k a s'
    | (Rejected e, s') => (Rejected e, s')
    end.

(** [try { body } catch (error) { handler }] *)
Definition try_catch {A} (body : M A) (handler : JsError -> M A) : M A :=
  fun s =>
    match body s with
    | (Fulfilled a, s') => (Fulfilled a, s')
    | (Rejected e, s') => handler e s'
    end.

Definition get {A} (field : This -> A) : M A :=
  fun s => (Fulfilled (field s), s).

Definition modify (f : This -> This) : M unit :=
  fun s => (Fulfilled tt, f s).

Notation "'let!' x ':=' m 'in' k" := (bind m (fun x => k))
  (at level 10, x name, m at level 100, k at level 200).
Notation "'do!' m 'in' k" := (bind m (fun _ => k))
  (at level 10, m at level 100, k at level 200).

Section Methods.

Variable W : World.

(** [await pipeline('feature-extraction', name, {...})] *)
Definition call_pipeline (name : string) : M Model :=
  fun s => (pipeline W (loads s) name, set_loads (S (loads s)) s).

Definition _initializeModel : M unit :=
  try_catch
    (let! name := get modelName in
     let! m := call_pipeline name in
     do! modify (set_model (Some m)) in
     modify (set_isInitialized true))
    (fun error => throw (initialization_error error)).

Definition initialize : M unit :=
  fun s =>
    if isInitialized s then (Fulfilled tt, s)
    else
      match initializationPromise s with
      | Some p => (p, s)
      | None =>
          let '(p, s') := _initializeModel s in
          (p, set_initializationPromise (Some p) s')
      end.

(** The [for] loop of [embedDocuments], from index [i] on. *)
Equations? embed_batches (textArray : list string) (i : nat)
    (embeddings : list Vec) (s : This) : Outcome (list Vec) * This
    by wf (length textArray - i) lt :=
  embed_batches textArray i embeddings s with decide (i < length textArray) := {
    | left _ =>
        let batch := slice textArray i (i + batchSize) in
        let s1 := set_inferred (inferred s ++ batch) s in
        match Promise_all (map (embed_text (model s)) batch) (completion W i) with
        | Fulfilled batchEmbeddings =>
            embed_batches textArray (i + batchSize)
              (embeddings ++ batchEmbeddings) s1
        | Rejected e => (Rejected e, s1)
        end
    | right _ => (Fulfilled embeddings, s) }.
Proof. unfold batchSize. lia. Qed.

Definition embedDocuments (texts : TextInput) : M (list Vec) :=
  try_catch
    (do! initialize in
     let textArray := toTextArray texts in
     if length textArray =? 0
     then throw (new_Error "No texts provided for embedding")
     else embed_batches textArray 0 [])
    (fun error => throw (documents_error error)).

(** [embeddings[0]] is [undefined] on an empty array. *)
Definition embedQuery (text : string) : M (option Vec) :=
  try_catch
    (let! embeddings := embedDocuments (Many [text]) in
     ret (embeddings !! 0))
    (fun error => throw (query_error error)).

Definition getEmbeddingDimension : M nat :=
  try_catch
    (do! initialize in
     let! cached := get _cachedDimension in
     if truthy cached then ret (default 0 cached)
     else
       let! testEmbedding := embedQuery "test" in
       match testEmbedding with
       | None =>
           throw (TypeError
                    "Cannot read properties of undefined (reading 'length')")
       | Some v =>
           do! modify (set_cachedDimension (Some (length v))) in
           ret (length v)
       end)
    (fun error => throw (dimension_error error)).

Definition healthCheck : M HealthRecord.t :=
  try_catch
    (do! initialize in
     let! dimension := getEmbeddingDimension in
     let! name := get modelName in
     let! ready := get isInitialized in
     ret {| HealthRecord.status := "healthy";
            HealthRecord.model := Some name;
            HealthRecord.dimension := Some dimension;
            HealthRecord.initialized := Some ready;
            HealthRecord.error := None;
            HealthRecord.timestamp := now W |})
    (fun error =>
       ret {| HealthRecord.status := "unhealthy";
              HealthRecord.model := None;
              HealthRecord.dimension := None;
              HealthRecord.initialized := None;
              HealthRecord.error := Some (message error);
              HealthRecord.timestamp := now W |}).

Definition getServiceInfo : M ServiceInfo.t :=
  try_catch
    (let! health := healthCheck in
     let! name := get modelName in
     ret {| ServiceInfo.name := "Transformers.js Embeddings";
            ServiceInfo.model := name;
            ServiceInfo.status := HealthRecord.status health;
            ServiceInfo.dimension := HealthRecord.dimension health;
            ServiceInfo.backend := Some "local";
            ServiceInfo.cost := Some "free";
            ServiceInfo.rateLimit := Some "none";
            ServiceInfo.error := None |})
    (fun error =>
       let! name := get modelName in
       ret {| ServiceInfo.name := "Transformers.js Embeddings";
              ServiceInfo.model := name;
              ServiceInfo.status := "error";
              ServiceInfo.dimension := None;
              ServiceInfo.backend := None;
              ServiceInfo.cost := None;
              ServiceInfo.rateLimit := None;
              ServiceInfo.error := Some (message error) |}).

End Methods.

(** What [new TransformersEmbeddings()] establishes and every method
    keeps. *)
Record well_formed (s : This) : Prop := mk_well_formed {
  wf_fulfilled :
    initializationPromise s = Some (Fulfilled tt) -> isInitialized s = true;
  wf_rejected :
    forall e, initializationPromise s = Some (Rejected e) ->
              exists original, e = initialization_error original;
  wf_model : isInitialized s = true -> is_Some (model s) }.

(** What a method may do to the fields: the model name stays, a ready
    service stays ready, a well-formed one well-formed. *)
Definition evolves (s s' : This) : Prop :=
  modelName s' = modelName s /\
  (isInitialized s = true -> isInitialized s' = true) /\
  (well_formed s -> well_formed s').

Definition keeps {A} (m : M A) : Prop := forall s, evolves s (snd (m s)).

(** The error [embedDocuments] ends with on an empty sequence.  The class
    defines no error classes: every error it throws is an [Error], and its
    kind is told by its message. *)
Definition InvalidInputError : JsError :=
  documents_error (new_Error "No texts provided for embedding").

(** [embedQuery] in the words of the specification: [embedDocuments] on the
    one-element sequence, then its sole result. *)
Definition sole {A} (l : list A) : option A :=
  match l with
  | [x] => Some x
  | _ => None
  end.

Definition embedQuery_spec (W : World) (text : string) : M (option Vec) :=
  fun s =>
    match embedDocuments W (Many [text]) s with
    | (Fulfilled embeddings, s') => (Fulfilled (sole embeddings), s')
    | (Rejected e, s') => (Rejected e, s')
    end.

End Sequential.

(** ** Several calls in flight: the event loop *)

Module EventLoop.

(** What [await this.initialize()] waits for: nothing when [initialize]
    found [isInitialized] set and returned, else the promise it found or
    stored in [this.initializationPromise]. *)
Inductive Awaited : Type :=
| Immediately
| OnPromise (p : nat).

(** Where a call of [getEmbeddingDimension] stands. *)
Inductive Stage : Type :=
| AtInitialize (h : Awaited)
    (** at [await this.initialize()] of [getEmbeddingDimension] *)
| AtProbeInitialize (h : Awaited)
    (** in [embedQuery('test')], at [await this.initialize()] of
        [embedDocuments] *)
| AtInference (pending : Outcome Vec)
    (** at [await Promise.all(...)] of the one batch [['test']] *)
| Finished (o : Outcome nat).

Inductive Call : Type :=
| InitializeCall (h : Awaited)
| DimensionCall (st : Stage).

Record Loop : Type := mkLoop {
  this : Service nat;
  (** the promises the calls of [_initializeModel()] returned, by address;
      [None] while pending *)
  promises : list (option (Outcome unit));
  calls : list Call }.

Definition start (EMBEDDING_MODEL : option string) : Loop :=
  mkLoop (constructor EMBEDDING_MODEL) [] [].

(** [_initializeModel()] up to [await pipeline(...)]: the load is started
    and a pending promise returned. *)
Definition _initializeModel (l : Loop) : nat * Loop :=
  (length (promises l),
   mkLoop (set_loads (S (loads (this l))) (this l))
     (promises l ++ [None]) (calls l)).

(** [_initializeModel()] after [await pipeline(...)], for the promise [p]. *)
Definition _initializeModel_resumes (p : nat) (loaded : Outcome Model)
    (l : Loop) : Loop :=
  match loaded with
  | Fulfilled m =>
      mkLoop (set_isInitialized true (set_model (Some m) (this l)))
        (<[p := Some (Fulfilled tt)]> (promises l)) (calls l)
  | Rejected error =>
      mkLoop (this l)
        (<[p := Some (Rejected (initialization_error error))]> (promises l))
        (calls l)
  end.

Definition initialize (l : Loop) : Awaited * Loop :=
  if isInitialized (this l) then (Immediately, l)
  else
    match initializationPromise (this l) with
    | Some p => (OnPromise p, l)
    | None =>
        let '(p, l') := _initializeModel l in
        (OnPromise p,
         mkLoop (set_initializationPromise (Some p) (this l'))
           (promises l') (calls l'))
    end.

(** What the awaiting caller sees, once there is something to see. *)
Definition observed (l : Loop) (h : Awaited) : option (Outcome unit) :=
  match h with
  | Immediately => Some (Fulfilled tt)
  | OnPromise p => mjoin (promises l !! p)
  end.

(** [getEmbeddingDimension()] up to its first [await]. *)
Definition getEmbeddingDimension_calls (l : Loop) : Stage * Loop :=
  let '(h, l') := initialize l in (AtInitialize h, l').

(** [getEmbeddingDimension()] from one [await] to the next; [None] while
    what it awaits is pending. *)
Definition getEmbeddingDimension_resumes (st : Stage) (l : Loop)
    : option (Stage * Loop) :=
  match st with
  | AtInitialize h =>
      match observed l h with
      | None => None
      | Some (Rejected error) =>
          Some (Finished (Rejected (dimension_error error)), l)
      | Some (Fulfilled _) =>
          if truthy (_cachedDimension (this l))
          then Some (Finished (Fulfilled (default 0 (_cachedDimension (this l)))), l)
          else let '(h', l') := initialize l in Some (AtProbeInitialize h', l')
      end
  | AtProbeInitialize h =>
      match observed l h with
      | None => None
      | Some (Rejected error) =>
          Some (Finished (Rejected
                  (dimension_error (query_error (documents_error error)))), l)
      | Some (Fulfilled _) =>
          Some (AtInference (embed_text (model (this l)) "test"),
                mkLoop (set_inferred (inferred (this l) ++ ["test"]) (this l))
                  (promises l) (calls l))
      end
  | AtInference pending =>
      match pending with
      | Rejected error =>
          Some (Finished (Rejected
                  (dimension_error (query_error (documents_error error)))), l)
      | Fulfilled testEmbedding =>
          Some (Finished (Fulfilled (length testEmbedding)),
                mkLoop (set_cachedDimension (Some (length testEmbedding)) (this l))
                  (promises l) (calls l))
      end
  | Finished _ => None
  end.

Inductive Event : Type :=
| Call_initialize
    (** somebody calls [initialize()] and awaits it *)
| Call_getEmbeddingDimension
| Pipeline_settles (p : nat) (loaded : Outcome Model)
    (** the load started for the promise [p] settles *)
| Resume (c : nat)
    (** the call number [c] goes on from its [await] *).

Definition step (ev : Event) (l : Loop) : option Loop :=
  match ev with
  | Call_initialize =>
      let '(h, l') := initialize l in
      Some (mkLoop (this l') (promises l') (calls l' ++ [InitializeCall h]))
  | Call_getEmbeddingDimension =>
      let '(st, l') := getEmbeddingDimension_calls l in
      Some (mkLoop (this l') (promises l') (calls l' ++ [DimensionCall st]))
  | Pipeline_settles p loaded =>
      match promises l !! p with
      | Some None => Some (_initializeModel_resumes p loaded l)
      | _ => None
      end
  | Resume c =>
      match calls l !! c with
      | Some (DimensionCall st) =>
          match getEmbeddingDimension_resumes st l with
          | Some (st', l') =>
              Some (mkLoop (this l') (promises l')
                      (<[c := DimensionCall st']> (calls l')))
          | None => None
          end
      | _ => None
      end
  end.

Fixpoint run (evs : list Event) (l : Loop) : option Loop :=
  match evs with
  | [] => Some l
  | ev :: evs' =>
      match step ev l with
      | Some l' => run evs' l'
      | None => None
      end
  end.

(** The [initialize()] a call is waiting on, if it is. *)
Definition awaiting (c : Call) : option Awaited :=
  match c with
  | InitializeCall h => Some h
  | DimensionCall (AtInitialize h) => Some h
  | DimensionCall (AtProbeInitialize h) => Some h
  | DimensionCall _ => None
  end.

(** The three states the specification names, read off the two flags. *)
Inductive InitState : Type := uninitialized | initializing | ready.

Definition init_state (l : Loop) : InitState :=
  if isInitialized (this l) then ready
  else
    match initializationPromise (this l) with
    | None => uninitialized
    | Some _ => initializing
    end.

(** A handle is good when it stands for the one initialization there is. *)
Definition good_handle (l : Loop) (h : Awaited) : Prop :=
  match h with
  | Immediately => isInitialized (this l) = true
  | OnPromise p => p = 0 /\ length (promises l) = 1
  end.

(** What holds of every state the loop reaches. *)
Record invariant (l : Loop) : Prop := mk_invariant {
  inv_loads : loads (this l) = length (promises l);
  inv_promise :
    match initializationPromise (this l) with
    | None => promises l = []
    | Some p => p = 0 /\ length (promises l) = 1
    end;
  inv_ready :
    isInitialized (this l) = true <->
    promises l !! 0 = Some (Some (Fulfilled tt));
  inv_rejected :
    forall e, promises l !! 0 = Some (Some (Rejected e)) ->
              exists original, e = initialization_error original;
  inv_calls :
    forall c h, c ∈ calls l -> awaiting c = Some h -> good_handle l h }.

(** The fields of [this] in the loop and in a run of one call at a time
    are the same, a promise there being the outcome it has here. *)
Definition agree (l : Loop) (s : Service (Outcome unit)) : Prop :=
  model (this l) = model s /\
  modelName (this l) = modelName s /\
  isInitialized (this l) = isInitialized s /\
  _cachedDimension (this l) = _cachedDimension s /\
  loads (this l) = loads s /\
  inferred (this l) = inferred s /\
  (initializationPromise (this l) ≫= fun p => mjoin (promises l !! p))
    = initializationPromise s.

(** The length of the vector the loaded model gives for ['test']. *)
Definition probe_dimension (l : Loop) : option nat :=
  match embed_text (model (this l)) "test" with
  | Fulfilled v => Some (length v)
  | Rejected _ => None
  end.

(** A call that has come to the point where the model is called, or has
    ended. *)
Definition probed (c : Call) : nat :=
  match c with
  | DimensionCall (AtInference _) => 1
  | DimensionCall (Finished _) => 1
  | _ => 0
  end.

Definition dimension_call (c : Call) : nat :=
  match c with
  | DimensionCall _ => 1
  | InitializeCall _ => 0
  end.

(** What the stage of a call says about the service. *)
Definition stage_fits (l : Loop) (c : Call) : Prop :=
  match c with
  | DimensionCall (AtProbeInitialize _) => isInitialized (this l) = true
  | DimensionCall (AtInference pending) =>
      isInitialized (this l) = true /\
      pending = embed_text (model (this l)) "test"
  | DimensionCall (Finished (Fulfilled d)) =>
      isInitialized (this l) = true /\ probe_dimension l = Some d
  | _ => True
  end.

(** What holds of the probe in every state the loop reaches. *)
Record probe_invariant (l : Loop) : Prop := mk_probe_invariant {
  pi_unready :
    isInitialized (this l) = false ->
    model (this l) = None /\ _cachedDimension (this l) = None /\
    inferred (this l) = [];
  pi_stages : forall c, c ∈ calls l -> stage_fits l c;
  pi_cache :
    forall d, _cachedDimension (this l) = Some d -> probe_dimension l = Some d;
  pi_count : length (inferred (this l)) <= sum_list_with probed (calls l) }.

End EventLoop.

(** ** The chat route

    [src/unnamed/part_000], second document: the [POST] handler that
    forwards a chat request about a document to the PDF service named by
    [API_URL].  [headers()], [request.json()], [fetch] and [NextResponse.json]
    belong to the runtime; what they give is taken from the world [Net],
    except [NextResponse.json], whose checks are those of the [Response]
    constructor.  Every value thrown here is an [Error] object, so
    [fetchError instanceof Error] holds. *)

Module ChatRoute.

(** A value [JSON.parse] gives. *)
#[warnings="-register-all"] Inductive Json : Type :=
| JNull
| JBool (b : bool)
| JNumber (x : float)
| JString (s : string)
| JArray (items : list Json)
| JObject (fields : list (string * Json)).

(** [fields[key]] of a parsed object, whose keys are distinct. *)
Fixpoint lookup_key (key : string) (fields : list (string * Json))
    : option Json :=
  match fields with
  | [] => None
  | (k, v) :: rest => if String.eqb k key then Some v else lookup_key key rest
  end.

(** [error.message] for a parsed [error]: reading a property of [null]
    throws, a string, number, boolean or array has no [message]. *)
Definition message_of (error : Json) : Outcome (option Json) :=
  match error with
  | JNull =>
      Rejected (TypeError "Cannot read properties of null (reading 'message')")
  | JObject fields => Fulfilled (lookup_key "message" fields)
  | _ => Fulfilled None
  end.

(** Whether a value counts as true in [value || other]. *)
Definition json_truthy (value : Json) : bool :=
  match value with
  | JNull => false
  | JBool b => b
  | JNumber x => negb (PrimFloat.eqb x 0%float) && negb (PrimFloat.is_nan x)
  | JString s => negb (String.eqb s "")
  | JArray _ => true
  | JObject _ => true
  end.

(** [value || other], [value] being [undefined] when [None]. *)
Definition or_else (value : option Json) (other : Json) : Json :=
  match value with
  | Some v => if json_truthy v then v else other
  | None => other
  end.

(** What the handler answers. *)
Record Response : Type := mkResponse { status : nat; body : Json }.

(** [NextResponse.json(body, { status })]: the [Response] constructor
    refuses a status outside 200..599 and a body with a status that allows
    none. *)
Definition null_body_status (status : nat) : bool :=
  (status =? 204) || (status =? 205) || (status =? 304).

Definition NextResponse_json (body : Json) (status : nat) : Outcome Response :=
  if (status <? 200) || (599 <? status)
  then Rejected (mkJsError "RangeError" "The status provided is outside the range [200, 599]")
  else if null_body_status status
  then Rejected (TypeError "Response with null body status cannot have body")
  else Fulfilled (mkResponse status body).

(** [{ error: text }] *)
Definition error_body (text : Json) : Json := JObject [("error", text)].

(** The request [fetch] is called with; [payload] is the value
    [JSON.stringify(body)] encodes. *)
Record Request : Type := mkRequest {
  url : string;
  method : string;
  headers : list (string * string);
  payload : Json }.

(** What [fetch] resolves to: [response.status] and what
    [response.json()] settles to. *)
Record Downstream : Type := mkDownstream {
  downstream_status : nat;
  downstream_json : Outcome Json }.

(** [response.ok] *)
Definition ok (response : Downstream) : bool :=
  (200 <=? downstream_status response) && (downstream_status response <=? 299).

(** What the handler does to the outside, in order. *)
Inductive Effect : Type :=
| ReadBody
| SetTimeout (ms : N)
| Fetch (request : Request)
| ClearTimeout
| ReadDownstreamBody
| ConsoleError.

Record Net : Type := mkNet {
  (** [process.env.API_URL] *)
  API_URL : option string;
  (** what [request.json()] settles to *)
  request_json : Outcome Json;
  (** what [fetch] settles to; an [AbortError] when the signal fired *)
  fetch : Request -> Outcome Downstream }.

(** [process.env.API_URL || 'http://localhost:8000'] *)
Definition apiUrl (net : Net) : string :=
  match API_URL net with
  | Some (String c rest) => String c rest
  | _ => "http://localhost:8000"
  end.

(** The handler's monad: the effects so far, and a value or an error. *)
Definition R (A : Type) : Type := list Effect -> Outcome A * list Effect.

Definition ret {A} (a : A) : R A := fun log => (Fulfilled a, log).

Definition throw {A} (e : JsError) : R A := fun log => (Rejected e, log).

Definition bind {A B} (m : R A) (k : A -> R B) : R B :=
  fun log =>
    match m log with
    | (Fulfilled a, log') => k a log'
    | (Rejected e, log') => (Rejected e, log')
    end.

Definition try_catch {A} (body : R A) (handler : JsError -> R A) : R A :=
  fun log =>
    match body log with
    | (Fulfilled a, log') => (Fulfilled a, log')
    | (Rejected e, log') => handler e log'
    end.

(** An operation of the runtime: it is recorded and settles to [o]. *)
Definition perform {A} (effect : Effect) (o : Outcome A) : R A :=
  fun log => (o, log ++ [effect]).

(** A computation that touches nothing outside. *)
Definition pure {A} (o : Outcome A) : R A := fun log => (o, log).

Notation "'let!' x ':=' m 'in' k" := (bind m (fun x => k))
  (at level 10, x name, m at level 100, k at level 200).
Notation "'do!' m 'in' k" := (bind m (fun _ => k))
  (at level 10, m at level 100, k at level 200).

(** [POST(request, { params })], with [x_user_id] what
    [headers().get('x-user-id')] gives. *)
Definition POST (net : Net) (x_user_id : option string) (documentId : string)
    : R Response :=
  try_catch
    (match x_user_id with
     | Some (String c rest) =>
         let userId := String c rest in
         let! body := perform ReadBody (request_json net) in
         do! perform (SetTimeout 60000%N) (Fulfilled tt) in
         try_catch
           (let request :=
              {| url := apiUrl net +:+ "/pdf/" +:+ documentId +:+ "/chat";
                 method := "POST";
                 headers := [("Content-Type", "application/json");
                             ("x-user-id", userId)];
                 payload := body |} in
            let! response := perform (Fetch request) (fetch net request) in
            do! perform ClearTimeout (Fulfilled tt) in
            if negb (ok response) then
              let! error :=
                perform ReadDownstreamBody (downstream_json response) in
              let! reason := pure (message_of error) in
              pure (NextResponse_json
                      (error_body
                         (or_else reason
                            (JString "Failed to process chat request")))
                      (downstream_status response))
            else
              let! data :=
                perform ReadDownstreamBody (downstream_json response) in
              pure (NextResponse_json data 200))
           (fun fetchError =>
              do! perform ClearTimeout (Fulfilled tt) in
              if String.eqb (error_name fetchError) "AbortError"
              then
                pure (NextResponse_json
                        (error_body
                           (JString
                              "Request timeout - PDF processing is taking longer than expected. Please try again."))
                        408)
              else throw fetchError)
     | _ =>
         pure (NextResponse_json
                 (error_body (JString "Unauthorized - User ID is required"))
                 401)
     end)
    (fun error =>
       do! perform ConsoleError (Fulfilled tt) in
       pure (NextResponse_json
               (error_body (JString "Internal server error")) 500)).

(** A call of the handler: what it answers and what it did. *)
Definition handle (net : Net) (x_user_id : option string)
    (documentId : string) : Outcome Response * list Effect :=
  POST net x_user_id documentId [].

(** How many timers stay armed after the effects [log]. *)
Fixpoint armed (log : list Effect) (timers : nat) : nat :=
  match log with
  | [] => timers
  | SetTimeout _ :: rest => armed rest (S timers)
  | ClearTimeout :: rest => armed rest (pred timers)
  | _ :: rest => armed rest timers
  end.

(** The requests sent, in order. *)
Fixpoint fetched (log : list Effect) : list Request :=
  match log with
  | [] => []
  | Fetch request :: rest => request :: fetched rest
  | _ :: rest => fetched rest
  end.

(** The request the handler sends for a caller and a body. *)
Definition forwarded (net : Net) (userId documentId : string) (body : Json)
    : Request :=
  {| url := apiUrl net +:+ "/pdf/" +:+ documentId +:+ "/chat";
     method := "POST";
     headers := [("Content-Type", "application/json"); ("x-user-id", userId)];
     payload := body |}.

(** The three answers the handler words itself. *)
Definition unauthorized : Response :=
  mkResponse 401 (error_body (JString "Unauthorized - User ID is required")).

Definition timed_out : Response :=
  mkResponse 408
    (error_body
       (JString
          "Request timeout - PDF processing is taking longer than expected. Please try again.")).

Definition internal_error : Response :=
  mkResponse 500 (error_body (JString "Internal server error")).

(** The statuses [NextResponse.json] takes with a body. *)
Definition representable (status : nat) : bool :=
  (200 <=? status) && (status <=? 599) && negb (null_body_status status).

(** The answer that passes on the error of the PDF service. *)
Definition passed_on (d : Downstream) (reason : option Json) : Response :=
  mkResponse (downstream_status d)
    (error_body (or_else reason (JString "Failed to process chat request"))).

End ChatRoute.

(** ** Worlds and models for the examples *)

Module Fixtures.

(** A model that embeds every text as the same unit vector. *)
Definition unit_vector : Model :=
  fun _ => Fulfilled (mkTensor [1%float; 0%float]).

(** A model that rejects every text. *)
Definition refusing : Model :=
  fun _ => Rejected (mkJsError "RangeError" "inference failed").

(** A model whose embedding of a text has as many entries as the text has
    characters. *)
Definition by_length : Model :=
  fun text => Fulfilled (mkTensor (repeat 1%float (String.length text))).

(** Twenty texts, of the lengths 0 to 19. *)
Definition twenty_texts : list string :=
  map (fun n => string_of_list_ascii (repeat "a"%char n)) (seq 0 20).

(** The model [by_length] loads; in every batch the computations settle
    from the last to the first. *)
Definition backwards : World :=
  mkWorld (fun _ _ => Fulfilled by_length) (fun _ => [7; 6; 5; 4; 3; 2; 1; 0])
    "2026-01-01T00:00:00.000Z".

(** The model loads; in a batch the second text is embedded before the
    first. *)
Definition online : World :=
  mkWorld (fun _ _ => Fulfilled unit_vector) (fun _ => [1; 0])
    "2026-01-01T00:00:00.000Z".

(** The model cannot be fetched. *)
Definition offline : World :=
  mkWorld (fun _ _ => Rejected (mkJsError "TypeError" "fetch failed"))
    (fun _ => []) "2026-01-01T00:00:00.000Z".

(** The model loads and rejects every text. *)
Definition misloaded : World :=
  mkWorld (fun _ _ => Fulfilled refusing) (fun _ => [])
    "2026-01-01T00:00:00.000Z".

Definition fresh : Service (Outcome unit) := constructor None.

(** Two callers of [initialize()] while the load is pending, the load
    succeeds, a third caller. *)
Definition three_callers : list EventLoop.Event :=
  [EventLoop.Call_initialize; EventLoop.Call_initialize;
   EventLoop.Pipeline_settles 0 (Fulfilled unit_vector);
   EventLoop.Call_initialize].

(** The loop after [three_callers]. *)
Definition after_three_callers : EventLoop.Loop :=
  EventLoop.mkLoop
    (mkService (Some unit_vector) "Xenova/all-MiniLM-L6-v2" true (Some 0)
       None 1 [])
    [Some (Fulfilled tt)]
    [EventLoop.InitializeCall (EventLoop.OnPromise 0);
     EventLoop.InitializeCall (EventLoop.OnPromise 0);
     EventLoop.InitializeCall EventLoop.Immediately].

(** Two callers of [initialize()] wait for the load. *)
Definition two_callers : list EventLoop.Event :=
  [EventLoop.Call_initialize; EventLoop.Call_initialize].

Definition load_pending : EventLoop.Loop :=
  EventLoop.mkLoop
    (mkService None "Xenova/all-MiniLM-L6-v2" false (Some 0) None 1 [])
    [None]
    [EventLoop.InitializeCall (EventLoop.OnPromise 0);
     EventLoop.InitializeCall (EventLoop.OnPromise 0)].

(** The load they wait for has failed. *)
Definition load_failed : EventLoop.Loop :=
  EventLoop.mkLoop
    (mkService None "Xenova/all-MiniLM-L6-v2" false (Some 0) None 1 [])
    [Some (Rejected (new_Error
       "Failed to initialize embedding model: fetch failed"))]
    [EventLoop.InitializeCall (EventLoop.OnPromise 0);
     EventLoop.InitializeCall (EventLoop.OnPromise 0)].

(** A third caller comes after the failure. *)
Definition third_caller_after_failure : EventLoop.Loop :=
  EventLoop.mkLoop
    (mkService None "Xenova/all-MiniLM-L6-v2" false (Some 0) None 1 [])
    [Some (Rejected (new_Error
       "Failed to initialize embedding model: fetch failed"))]
    [EventLoop.InitializeCall (EventLoop.OnPromise 0);
     EventLoop.InitializeCall (EventLoop.OnPromise 0);
     EventLoop.InitializeCall (EventLoop.OnPromise 0)].

(** A caller of [initialize()], the load fails, a second caller. *)
Definition retry_after_failure : list EventLoop.Event :=
  [EventLoop.Call_initialize;
   EventLoop.Pipeline_settles 0 (Rejected (mkJsError "TypeError" "fetch failed"));
   EventLoop.Call_initialize].

(** The loop after [retry_after_failure]. *)
Definition second_caller_after_failure : EventLoop.Loop :=
  EventLoop.mkLoop
    (mkService None "Xenova/all-MiniLM-L6-v2" false (Some 0) None 1 [])
    [Some (Rejected (new_Error
       "Failed to initialize embedding model: fetch failed"))]
    [EventLoop.InitializeCall (EventLoop.OnPromise 0);
     EventLoop.InitializeCall (EventLoop.OnPromise 0)].

(** On a ready service, two calls of [getEmbeddingDimension()] made one
    after the other without awaiting the first, as in
    [Promise.all([s.getEmbeddingDimension(), s.getEmbeddingDimension()])];
    the calls have the numbers 1 and 2 and take turns. *)
Definition two_dimension_calls : list EventLoop.Event :=
  [EventLoop.Call_initialize;
   EventLoop.Pipeline_settles 0 (Fulfilled unit_vector);
   EventLoop.Call_getEmbeddingDimension; EventLoop.Call_getEmbeddingDimension;
   EventLoop.Resume 1; EventLoop.Resume 2;
   EventLoop.Resume 1; EventLoop.Resume 2;
   EventLoop.Resume 1; EventLoop.Resume 2].

(** The loop after [two_dimension_calls]. *)
Definition after_two_dimension_calls : EventLoop.Loop :=
  EventLoop.mkLoop
    (mkService (Some unit_vector) "Xenova/all-MiniLM-L6-v2" true (Some 0)
       (Some 2) 1 ["test"; "test"])
    [Some (Fulfilled tt)]
    [EventLoop.InitializeCall (EventLoop.OnPromise 0);
     EventLoop.DimensionCall (EventLoop.Finished (Fulfilled 2));
     EventLoop.DimensionCall (EventLoop.Finished (Fulfilled 2))].

(** The service after the model [unit_vector] has loaded. *)
Definition ready : Service (Outcome unit) :=
  mkService (Some unit_vector) "Xenova/all-MiniLM-L6-v2" true
    (Some (Fulfilled tt)) None 1 [].

(** The same, after a call of [getEmbeddingDimension]. *)
Definition measured : Service (Outcome unit) :=
  mkService (Some unit_vector) "Xenova/all-MiniLM-L6-v2" true
    (Some (Fulfilled tt)) (Some 2) 1 ["test"].

(** As [online], the computations of a batch settling in their order. *)
Definition online_in_order : World :=
  mkWorld (fun _ _ => Fulfilled unit_vector) (fun _ => [0; 1])
    "2026-01-01T00:00:00.000Z".

(** A model that rejects the text ['bad'] and no other. *)
Definition choosy : Model :=
  fun text =>
    if String.eqb text "bad"
    then Rejected (mkJsError "RangeError" "cannot embed")
    else Fulfilled (mkTensor [1%float; 0%float]).

Definition ready_choosy : Service (Outcome unit) :=
  mkService (Some choosy) "Xenova/all-MiniLM-L6-v2" true
    (Some (Fulfilled tt)) None 1 [].

(** Twenty texts, the tenth of them ['bad']. *)
Definition texts_with_a_bad_one : list string :=
  take 9 twenty_texts ++ ["bad"] ++ drop 10 twenty_texts.

(** A model whose vectors are empty. *)
Definition hollow : Model := fun _ => Fulfilled (mkTensor []).

Definition ready_hollow : Service (Outcome unit) :=
  mkService (Some hollow) "Xenova/all-MiniLM-L6-v2" true
    (Some (Fulfilled tt)) None 1 [].

(** The service after a load that failed. *)
Definition failed : Service (Outcome unit) :=
  mkService None "Xenova/all-MiniLM-L6-v2" false
    (Some (Rejected (new_Error
       "Failed to initialize embedding model: fetch failed")))
    None 1 [].

(** On a ready service a call of [getEmbeddingDimension()] has been made
    and not yet resumed. *)
Definition dimension_call_made : list EventLoop.Event :=
  [EventLoop.Call_initialize;
   EventLoop.Pipeline_settles 0 (Fulfilled unit_vector);
   EventLoop.Call_getEmbeddingDimension].

Definition dimension_call_waiting : EventLoop.Loop :=
  EventLoop.mkLoop
    (mkService (Some unit_vector) "Xenova/all-MiniLM-L6-v2" true (Some 0)
       None 1 [])
    [Some (Fulfilled tt)]
    [EventLoop.InitializeCall (EventLoop.OnPromise 0);
     EventLoop.DimensionCall (EventLoop.AtInitialize EventLoop.Immediately)].

(** A question about a document. *)
Definition question : ChatRoute.Json :=
  ChatRoute.JObject [("message", ChatRoute.JString "What is chapter 2 about?")].

(** The PDF service answers the question. *)
Definition answering : ChatRoute.Net :=
  ChatRoute.mkNet None (Fulfilled question)
    (fun _ =>
       Fulfilled
         (ChatRoute.mkDownstream 201
            (Fulfilled
               (ChatRoute.JObject
                  [("answer", ChatRoute.JString "Promises.")])))).

(** The PDF service does not know the document. *)
Definition not_found : ChatRoute.Net :=
  ChatRoute.mkNet (Some "http://pdf.internal") (Fulfilled question)
    (fun _ =>
       Fulfilled
         (ChatRoute.mkDownstream 404
            (Fulfilled
               (ChatRoute.JObject
                  [("message", ChatRoute.JString "Document not found")])))).

(** The PDF service takes more than a minute. *)
Definition too_slow : ChatRoute.Net :=
  ChatRoute.mkNet None (Fulfilled question)
    (fun _ => Rejected (mkJsError "AbortError" "This operation was aborted")).

(** The request has no JSON body. *)
Definition no_body : ChatRoute.Net :=
  ChatRoute.mkNet None
    (Rejected (mkJsError "SyntaxError" "Unexpected end of JSON input"))
    (fun _ => Rejected (mkJsError "TypeError" "fetch failed")).

(** The PDF service fails and its answer is not JSON. *)
Definition garbled : ChatRoute.Net :=
  ChatRoute.mkNet None (Fulfilled question)
    (fun _ =>
       Fulfilled
         (ChatRoute.mkDownstream 502
            (Rejected (mkJsError "SyntaxError" "Unexpected token < in JSON")))).

End Fixtures.

(** * Properties *)

(** ** [Promise.all] *)

Section PromiseAllFacts.

Context {V : Type}.
Implicit Types (outs : list (Outcome V)) (slots : list (option V)).

Lemma slots_agree_empty outs :
  slots_agree outs (replicate (length outs) None).
Proof.
  split; [by rewrite length_replicate|].
  intros j v Hj. apply lookup_replicate in Hj as [? _]. discriminate.
Qed.

Lemma slots_agree_insert outs slots i v :
  slots_agree outs slots -> outs !! i = Some (Fulfilled v) ->
  slots_agree outs (<[i := Some v]> slots).
Proof.
  intros [Hlen Hag] Hi. split; [by rewrite length_insert|].
  intros j w Hj. destruct (decide (i = j)) as [->|Hne].
  - rewrite list_lookup_insert_eq in Hj; [congruence|].
    rewrite Hlen. by eapply lookup_lt_Some.
  - rewrite list_lookup_insert_ne in Hj by done. by apply Hag.
Qed.

Lemma settle_all_rejected outs order slots e :
  settle_all outs order slots = Rejected e ->
  exists i, i ∈ order /\ outs !! i = Some (Rejected e).
Proof.
  revert slots. induction order as [|i order IH]; intros slots; simpl.
  - discriminate.
  - destruct (outs !! i) as [[v|e']|] eqn:Hi.
    + intros H. destruct (IH _ H) as (j & ? & ?). exists j.
      split; [by apply elem_of_cons; right | done].
    + intros [= ->]. exists i. split; [by apply elem_of_cons; left | done].
    + intros H. destruct (IH _ H) as (j & ? & ?). exists j.
      split; [by apply elem_of_cons; right | done].
Qed.

Lemma settle_all_fulfilled outs order slots slots' :
  settle_all outs order slots = Fulfilled slots' ->
  slots_agree outs slots ->
  slots_agree outs slots' /\
  (forall j v, slots !! j = Some (Some v) -> slots' !! j = Some (Some v)) /\
  (forall j, j ∈ order -> j < length outs ->
             exists v, slots' !! j = Some (Some v)).
Proof.
  revert slots. induction order as [|i order IH]; intros slots; simpl.
  - intros [= ->] Hag. split_and!; [done|done|].
    intros j Hj. by apply elem_of_nil in Hj.
  - destruct (outs !! i) as [[v|e']|] eqn:Hi; [| done |].
    + intros H Hag.
      destruct (IH _ H (slots_agree_insert _ _ _ _ Hag Hi)) as (Hag' & Hmono & Hin).
      split_and!; [done| |].
      * intros j w Hj. apply Hmono. destruct (decide (i = j)) as [->|Hne].
        -- destruct Hag as [Hlen Hag]. pose proof (Hag _ _ Hj) as Hj'.
           rewrite Hi in Hj'. injection Hj' as ->.
           rewrite list_lookup_insert_eq; [done|]. by eapply lookup_lt_Some.
        -- by rewrite list_lookup_insert_ne.
      * intros j Hj Hlt. apply elem_of_cons in Hj as [->|Hj]; [|by apply Hin].
        exists v. apply Hmono. rewrite list_lookup_insert_eq; [done|].
        destruct Hag as [-> _]. done.
    + intros H Hag. destruct (IH _ H Hag) as (Hag' & Hmono & Hin).
      split_and!; [done|done|].
      intros j Hj Hlt. apply elem_of_cons in Hj as [->|Hj]; [|by apply Hin].
      apply lookup_ge_None in Hi. lia.
Qed.

Lemma filled_all_some slots :
  (forall j, j < length slots -> exists v, slots !! j = Some (Some v)) ->
  slots = Some <$> filled slots.
Proof.
  induction slots as [|[v|] slots IH]; intros H; simpl.
  - done.
  - f_equal. apply IH. intros j Hj. apply (H (S j)). simpl. lia.
  - destruct (H 0) as [v Hv]; [simpl; lia|]. discriminate.
Qed.

(** What [Promise.all] settles to, whatever the order of completion: the
    values of all computations, in the order of the computations, or the
    error one of them was rejected with. *)
Lemma Promise_all_spec outs first :
  match Promise_all outs first with
  | Fulfilled vs => outs = Fulfilled <$> vs
  | Rejected e => exists i, outs !! i = Some (Rejected e)
  end.
Proof.
  unfold Promise_all.
  destruct (settle_all _ _ _) as [slots|e] eqn:H.
  - apply settle_all_fulfilled in H as ([Hlen Hag] & _ & Hin);
      [|apply slots_agree_empty].
    assert (Hall : forall j, j < length slots ->
                             exists v, slots !! j = Some (Some v)).
    { intros j Hj. apply Hin; [|lia].
      apply elem_of_app. right. apply elem_of_seq. lia. }
    apply filled_all_some in Hall.
    apply list_eq. intros j. rewrite list_lookup_fmap.
    destruct (filled slots !! j) as [v|] eqn:Hv; simpl.
    + apply Hag. rewrite Hall, list_lookup_fmap, Hv. done.
    + apply lookup_ge_None. apply lookup_ge_None in Hv.
      rewrite <- Hlen, Hall, length_fmap. done.
  - apply settle_all_rejected in H as (i & _ & Hi). eauto.
Qed.

Lemma fmap_Fulfilled_inj (vs ws : list V) :
  Fulfilled <$> vs = Fulfilled <$> ws -> vs = ws.
Proof.
  revert ws. induction vs as [|v vs IH]; intros [|w ws]; simpl; try done.
  intros [= -> H]. f_equal. by apply IH.
Qed.

Lemma Promise_all_fulfilled (vs : list V) first :
  Promise_all (Fulfilled <$> vs) first = Fulfilled vs.
Proof.
  pose proof (Promise_all_spec (Fulfilled <$> vs) first) as H.
  destruct (Promise_all _ _) as [ws|e].
  - f_equal. symmetry. by apply fmap_Fulfilled_inj.
  - destruct H as [i Hi]. rewrite list_lookup_fmap in Hi.
    destruct (vs !! i); discriminate.
Qed.

Lemma Promise_all_singleton (o : Outcome V) first :
  Promise_all [o] first =
    match o with
    | Fulfilled v => Fulfilled [v]
    | Rejected e => Rejected e
    end.
Proof.
  pose proof (Promise_all_spec [o] first) as H.
  destruct (Promise_all [o] first) as [vs|e].
  - destruct vs as [|v [|? ?]]; try done. by injection H as ->.
  - destruct H as [[|i] Hi]; [by injection Hi as ->|done].
Qed.

End PromiseAllFacts.

(** ** The methods, one call at a time *)

Module SequentialFacts.
Import Sequential.

Section Facts.

Variable W : World.

(** *** The monad *)

Lemma try_catch_rethrow {A} (body : M A) (f : JsError -> JsError) s e s' :
  try_catch body (fun error => throw (f error)) s = (Rejected e, s') ->
  exists e0, body s = (Rejected e0, s') /\ e = f e0.
Proof.
  unfold try_catch, throw. destruct (body s) as [[a|e0] s1]; [done|].
  intros [= <- <-]. eauto.
Qed.


Lemma evolves_refl s : evolves s s.
Proof. by split_and!. Qed.

Lemma evolves_trans s1 s2 s3 : evolves s1 s2 -> evolves s2 s3 -> evolves s1 s3.
Proof.
  intros (Hn & Hi & Hw) (Hn' & Hi' & Hw'). split_and!; [congruence|auto|auto].
Qed.

Lemma keeps_ret {A} (a : A) : keeps (ret a).
Proof. intros s. apply evolves_refl. Qed.

Lemma keeps_throw {A} e : keeps (@throw A e).
Proof. intros s. apply evolves_refl. Qed.

Lemma keeps_get {A} (field : This -> A) : keeps (get field).
Proof. intros s. apply evolves_refl. Qed.

Lemma keeps_bind {A B} (m : M A) (k : A -> M B) :
  keeps m -> (forall a, keeps (k a)) -> keeps (bind m k).
Proof.
  intros Hm Hk s. unfold bind. specialize (Hm s).
  destruct (m s) as [[a|e] s1]; simpl in *; [|done].
  eapply evolves_trans; [exact Hm | apply Hk].
Qed.

Lemma keeps_try_catch {A} (body : M A) (handler : JsError -> M A) :
  keeps body -> (forall e, keeps (handler e)) -> keeps (try_catch body handler).
Proof.
  intros Hm Hk s. unfold try_catch. specialize (Hm s).
  destruct (body s) as [[a|e] s1]; simpl in *; [done|].
  eapply evolves_trans; [exact Hm | apply Hk].
Qed.

Lemma keeps_set_cachedDimension d : keeps (modify (set_cachedDimension d)).
Proof.
  intros s. split_and!; try done. intros [H1 H2 H3]. by constructor.
Qed.

Lemma evolves_set_inferred l s : evolves s (set_inferred l s).
Proof. split_and!; try done. intros [H1 H2 H3]. by constructor. Qed.

(** *** [initialize] *)

Lemma well_formed_constructor name : well_formed (constructor name).
Proof. constructor; simpl; [done | done | done]. Qed.

(** The three ways [initialize] goes. *)
Lemma initialize_cases s :
  (isInitialized s = true /\ initialize W s = (Fulfilled tt, s)) \/
  (isInitialized s = false /\
   exists p, initializationPromise s = Some p /\ initialize W s = (p, s)) \/
  (isInitialized s = false /\ initializationPromise s = None /\
   match pipeline W (loads s) (modelName s) with
   | Fulfilled m =>
       initialize W s =
         (Fulfilled tt,
          set_initializationPromise (Some (Fulfilled tt))
            (set_isInitialized true (set_model (Some m)
               (set_loads (S (loads s)) s))))
   | Rejected e =>
       initialize W s =
         (Rejected (initialization_error e),
          set_initializationPromise (Some (Rejected (initialization_error e)))
            (set_loads (S (loads s)) s))
   end).
Proof.
  unfold initialize. destruct (isInitialized s) eqn:Hi; [by left|right].
  destruct (initializationPromise s) as [p|] eqn:Hp; [left; eauto|right].
  split_and!; [done|done|].
  unfold _initializeModel, try_catch, bind, get, call_pipeline, modify, throw.
  by destruct (pipeline W (loads s) (modelName s)).
Qed.

Lemma keeps_initialize : keeps (initialize W).
Proof.
  intros s.
  destruct (initialize_cases s) as [[Hi ->]|[(Hi & p & Hp & ->)|(Hi & Hp & H)]];
    [apply evolves_refl | apply evolves_refl |].
  destruct (pipeline W (loads s) (modelName s)) as [m|e]; rewrite H; simpl.
  - split_and!; [done|done|]. intros _. constructor; simpl; eauto; done.
  - split_and!; [done|congruence|]. intros _. constructor; simpl.
    + done.
    + intros e' [= <-]. eauto.
    + congruence.
Qed.

Lemma initialize_fulfilled s s1 :
  well_formed s -> initialize W s = (Fulfilled tt, s1) ->
  isInitialized s1 = true /\ is_Some (model s1) /\
  initialize W s1 = (Fulfilled tt, s1).
Proof.
  intros Hwf H.
  assert (Hwf1 : well_formed s1).
  { pose proof (keeps_initialize s) as (_ & _ & Hk). rewrite H in Hk. auto. }
  assert (Hi1 : isInitialized s1 = true).
  { destruct (initialize_cases s)
      as [[Hi Heq]|[(Hi & p & Hp & Heq)|(Hi & Hp & Heq)]].
    - congruence.
    - rewrite Heq in H. injection H as -> <-. by apply Hwf.
    - destruct (pipeline W (loads s) (modelName s));
        rewrite Heq in H; [|done]. by injection H as <-. }
  split_and!; [done | by apply Hwf1 |].
  unfold initialize. by rewrite Hi1.
Qed.

Lemma initialize_rejected s e s1 :
  well_formed s -> initialize W s = (Rejected e, s1) ->
  exists original, e = initialization_error original.
Proof.
  intros Hwf H.
  destruct (initialize_cases s)
    as [[Hi Heq]|[(Hi & p & Hp & Heq)|(Hi & Hp & Heq)]].
  - congruence.
  - rewrite Heq in H. injection H as -> <-. by apply Hwf.
  - destruct (pipeline W (loads s) (modelName s)) as [m|e0];
      rewrite Heq in H; [done|]. injection H as <- _. eauto.
Qed.

(** *** [embedDocuments] *)

Lemma slice_batch {A} (l : list A) i :
  slice l i (i + batchSize) = take batchSize (drop i l).
Proof. unfold slice. f_equal. lia. Qed.

Lemma drop_next_batch {A} (l : list A) i :
  drop i l = slice l i (i + batchSize) ++ drop (i + batchSize) l.
Proof. rewrite slice_batch, <- drop_drop, take_drop. done. Qed.

Lemma embed_text_fulfilled mdl t v :
  embed_text mdl t = Fulfilled v <->
  exists m result, mdl = Some m /\ m t = Fulfilled result /\ v = data result.
Proof.
  unfold embed_text. split.
  - destruct mdl as [m|]; [|done].
    destruct (m t) as [r|e] eqn:Hr; [|done]. intros [= <-]. eauto.
  - intros (m & r & -> & -> & ->). done.
Qed.

Lemma embed_text_rejected mdl t e :
  embed_text mdl t = Rejected e ->
  exists original, e = text_error original /\
    forall m, mdl = Some m -> m t = Rejected original.
Proof.
  unfold embed_text. destruct mdl as [m|].
  - destruct (m t) as [r|e0] eqn:Hr; [done|]. intros [= <-].
    exists e0. split; [done|]. by intros ? [= <-].
  - intros [= <-]. eexists. split; [done|]. done.
Qed.

(** The loop from index [i] on: it ends with the embeddings of all the
    texts from [i] on appended, in their order, or with the error of one of
    them; only the instrumentation changes. *)
Lemma embed_batches_spec ta i acc s :
  match embed_batches W ta i acc s with
  | (Fulfilled vs, s') =>
      (exists vs', vs = acc ++ vs' /\
                   embed_text (model s) <$> drop i ta = Fulfilled <$> vs') /\
      s' = set_inferred (inferred s ++ drop i ta) s
  | (Rejected e, s') =>
      (exists t, t ∈ drop i ta /\ embed_text (model s) t = Rejected e) /\
      exists l, s' = set_inferred l s
  end.
Proof.
  funelim (embed_batches W ta i acc s); clear Heqcall.
  - rewrite (drop_next_batch textArray i).
    set (batch := slice textArray i (i + batchSize)) in *.
    pose proof (Promise_all_spec (map (embed_text (model s)) batch)
                  (completion W i)) as HP.
    destruct (Promise_all _ _) as [bvs|e].
    + specialize (H bvs). simpl in H.
      destruct (embed_batches _ _ _ _ _) as [[vs|e] s'].
      * destruct H as [(vs' & -> & Hvs') ->]. split.
        -- exists (bvs ++ vs'). split; [by rewrite app_assoc|].
           rewrite !fmap_app. by f_equal.
        -- destruct s; unfold set_inferred; simpl. by rewrite app_assoc.
      * destruct H as [(t & Ht & He) [l' ->]]. split.
        -- exists t. split; [|done]. apply elem_of_app. by right.
        -- exists l'. by destruct s.
    + split; [|eauto]. destruct HP as [j Hj].
      apply list_lookup_fmap_Some in Hj as (t & Ht & He).
      exists t. split; [|done]. apply elem_of_app. left.
      apply list_elem_of_lookup. eauto.
  - rewrite drop_ge by lia. split.
    + exists []. by rewrite app_nil_r.
    + destruct s; unfold set_inferred; simpl. by rewrite app_nil_r.
Qed.

(** The loop on a single text. *)
Lemma embed_batches_one text s :
  embed_batches W [text] 0 [] s =
    (match embed_text (model s) text with
     | Fulfilled v => Fulfilled [v]
     | Rejected e => Rejected e
     end, set_inferred (inferred s ++ [text]) s).
Proof.
  simp embed_batches. simpl. rewrite Promise_all_singleton.
  destruct (embed_text (model s) text); [|done].
  simp embed_batches. simpl. done.
Qed.

(** The ways [embedDocuments] goes, after its [await this.initialize()]. *)
Lemma embedDocuments_cases texts s :
  match initialize W s with
  | (Rejected e0, s1) =>
      embedDocuments W texts s = (Rejected (documents_error e0), s1)
  | (Fulfilled _, s1) =>
      match toTextArray texts with
      | [] => embedDocuments W texts s = (Rejected InvalidInputError, s1)
      | _ :: _ =>
          match embedDocuments W texts s with
          | (Fulfilled vs, s2) =>
              embed_text (model s1) <$> toTextArray texts = Fulfilled <$> vs /\
              s2 = set_inferred (inferred s1 ++ toTextArray texts) s1
          | (Rejected e, s2) =>
              (exists t e1, t ∈ toTextArray texts /\
                  embed_text (model s1) t = Rejected e1 /\
                  e = documents_error e1) /\
              exists l, s2 = set_inferred l s1
          end
      end
  end.
Proof.
  unfold embedDocuments, try_catch, bind, throw.
  destruct (initialize W s) as [[[]|e0] s1]; [|done].
  destruct (toTextArray texts) as [|t0 ta] eqn:Hta; [done|].
  rewrite <- Hta. replace (length (toTextArray texts) =? 0) with false
    by (by rewrite Hta).
  pose proof (embed_batches_spec (toTextArray texts) 0 [] s1) as H.
  rewrite drop_0 in H.
  destruct (embed_batches _ _ _ _ _) as [[vs|e] s2].
  - destruct H as [(vs' & -> & Hvs) ->]. done.
  - destruct H as [(t & Ht & He) Hl]. split; [|done]. eauto.
Qed.

(** *** What every method keeps *)

Lemma keeps_embed_batches ta i acc : keeps (embed_batches W ta i acc).
Proof.
  intros s. pose proof (embed_batches_spec ta i acc s) as H.
  destruct (embed_batches _ _ _ _ _) as [[vs|e] s']; simpl.
  - destruct H as [_ ->]. apply evolves_set_inferred.
  - destruct H as [_ [l ->]]. apply evolves_set_inferred.
Qed.

Lemma keeps_embedDocuments texts : keeps (embedDocuments W texts).
Proof.
  apply keeps_try_catch; [|intros; apply keeps_throw].
  apply keeps_bind; [apply keeps_initialize|]. intros _.
  cbv zeta. destruct (length (toTextArray texts) =? 0);
    [apply keeps_throw | apply keeps_embed_batches].
Qed.

Lemma keeps_embedQuery text : keeps (embedQuery W text).
Proof.
  apply keeps_try_catch; [|intros; apply keeps_throw].
  apply keeps_bind; [apply keeps_embedDocuments|]. intros; apply keeps_ret.
Qed.

Lemma keeps_getEmbeddingDimension : keeps (getEmbeddingDimension W).
Proof.
  apply keeps_try_catch; [|intros; apply keeps_throw].
  apply keeps_bind; [apply keeps_initialize|]. intros _.
  apply keeps_bind; [apply keeps_get|]. intros cached.
  destruct (truthy cached); [apply keeps_ret|].
  apply keeps_bind; [apply keeps_embedQuery|]. intros [v|].
  - apply keeps_bind; [apply keeps_set_cachedDimension|].
    intros; apply keeps_ret.
  - apply keeps_throw.
Qed.

Lemma keeps_healthCheck : keeps (healthCheck W).
Proof.
  apply keeps_try_catch; [|intros; apply keeps_ret].
  apply keeps_bind; [apply keeps_initialize|]. intros _.
  apply keeps_bind; [apply keeps_getEmbeddingDimension|]. intros d.
  apply keeps_bind; [apply keeps_get|]. intros name.
  apply keeps_bind; [apply keeps_get|]. intros; apply keeps_ret.
Qed.

(** *** The cached dimension, one call at a time *)



End Facts.

(** *** Order of the embeddings *)

(** C3.  On a non-empty sequence of texts, once the service is ready and
    the model embeds each of the texts, [embedDocuments] returns one
    embedding per text, the [i]-th one being that of the [i]-th text: for
    every length of the input, smaller than, equal to or larger than the
    batch size, and for every order in which the computations of a batch
    settle (both are universally quantified, the order through [W]). *)
Theorem embedDocuments_preserves_order W texts s s1 m :
  toTextArray texts <> [] ->
  initialize W s = (Fulfilled tt, s1) ->
  model s1 = Some m ->
  (forall t, t ∈ toTextArray texts -> exists result, m t = Fulfilled result) ->
  exists vs s2,
    embedDocuments W texts s = (Fulfilled vs, s2) /\
    length vs = length (toTextArray texts) /\
    forall i t, toTextArray texts !! i = Some t ->
      exists result, m t = Fulfilled result /\ vs !! i = Some (data result).
Proof.
  intros Hne Hinit Hm Hall.
  pose proof (embedDocuments_cases W texts s) as H. rewrite Hinit in H.
  destruct (toTextArray texts) as [|t0 ta] eqn:Hta; [done|].
  rewrite <- Hta in *. clear Hta t0 ta.
  destruct (embedDocuments W texts s) as [[vs|e] s2].
  - destruct H as [Hvs _]. exists vs, s2. split_and!; [done| |].
    + apply (f_equal length) in Hvs. by rewrite !length_fmap in Hvs.
    + intros i t Hi. apply (f_equal (fun l => l !! i)) in Hvs.
      rewrite !list_lookup_fmap, Hi in Hvs. simpl in Hvs.
      destruct (vs !! i) as [v|] eqn:Hv; [|done].
      injection Hvs as Hvs. apply embed_text_fulfilled in Hvs
        as (m' & result & Hm' & Hr & ->).
      rewrite Hm in Hm'. injection Hm' as <-. by exists result.
  - destruct H as [(t & e1 & Ht & He1 & _) _].
    destruct (Hall t Ht) as [result Hr].
    apply embed_text_rejected in He1 as (original & _ & Ho).
    rewrite (Ho m Hm) in Hr. done.
Qed.

Lemma embedDocuments_preserves_order_witness :
  exists vs s2,
    embedDocuments Fixtures.online (Many ["the cat sat"; "a cat is sitting"])
      Fixtures.fresh = (Fulfilled vs, s2) /\
    length vs = 2 /\
    forall i t, ["the cat sat"; "a cat is sitting"] !! i = Some t ->
      exists result, Fixtures.unit_vector t = Fulfilled result /\
                     vs !! i = Some (data result).
Proof.
  apply (embedDocuments_preserves_order Fixtures.online
           (Many ["the cat sat"; "a cat is sitting"]) Fixtures.fresh
           (snd (initialize Fixtures.online Fixtures.fresh))
           Fixtures.unit_vector).
  - discriminate.
  - reflexivity.
  - reflexivity.
  - intros t _. eexists. reflexivity.
Defined.

(** Three batches, of 8, 8 and 4 texts, each settling backwards: the
    embeddings come in the order of the texts. *)
Example embedDocuments_twenty_texts :
  (map length <$>
     match fst (embedDocuments Fixtures.backwards (Many Fixtures.twenty_texts)
                  Fixtures.fresh) with
     | Fulfilled vs => Some vs
     | Rejected _ => None
     end) = Some (seq 0 20).
Proof. vm_compute. reflexivity. Qed.

(** *** The empty input *)

(** C4, as the code has it: the emptiness check comes after
    [await this.initialize()].  Once initialization succeeds,
    [embedDocuments] ends with the empty-input error exactly when the
    effective sequence is empty; in every well-formed state the empty-input
    error is raised on no other input, [embedDocuments([])] fails, and a
    single text (the empty string too) is a one-element sequence that never
    meets the empty-input error. *)
Theorem embedDocuments_empty_input W texts s :
  well_formed s ->
  (fst (initialize W s) = Fulfilled tt ->
   (fst (embedDocuments W texts s) = Rejected InvalidInputError <->
    toTextArray texts = [])) /\
  (forall e, fst (embedDocuments W texts s) = Rejected e ->
             message e = message InvalidInputError ->
             toTextArray texts = []) /\
  (toTextArray texts = [] ->
   exists e, fst (embedDocuments W texts s) = Rejected e) /\
  (forall text, texts = Single text ->
     toTextArray texts = [text] /\
     fst (embedDocuments W texts s) <> Rejected InvalidInputError).
Proof.
  intros Hwf.
  assert (Honly : forall e, fst (embedDocuments W texts s) = Rejected e ->
                    message e = message InvalidInputError ->
                    toTextArray texts = []).
  { intros e He Hmsg.
    pose proof (embedDocuments_cases W texts s) as H.
    destruct (initialize W s) as [[[]|e0] s1] eqn:Hinit.
    - destruct (toTextArray texts) as [|t0 ta]; [done|exfalso].
      destruct (embedDocuments W texts s) as [[vs|e'] s2]; [done|].
      simpl in He. injection He as ->.
      destruct H as [(t & e1 & _ & He1 & ->) _].
      apply embed_text_rejected in He1 as (original & -> & _).
      cbv in Hmsg. discriminate Hmsg.
    - exfalso. rewrite H in He. simpl in He. injection He as <-.
      apply (initialize_rejected W _ _ _ Hwf) in Hinit as [original ->].
      cbv in Hmsg. discriminate Hmsg. }
  split_and!.
  - intros Hinit. split; [intros He; by apply (Honly _ He)|].
    intros Hnil. pose proof (embedDocuments_cases W texts s) as H.
    destruct (initialize W s) as [[[]|e0] s1]; [|done].
    rewrite Hnil in H. by rewrite H.
  - exact Honly.
  - intros Hnil. pose proof (embedDocuments_cases W texts s) as H.
    destruct (initialize W s) as [[[]|e0] s1]; rewrite ?Hnil in H;
      rewrite H; eauto.
  - intros text ->. split; [done|]. intros He.
    by specialize (Honly _ He eq_refl).
Qed.

Lemma embedDocuments_empty_input_witness :
  (fst (initialize Fixtures.online Fixtures.fresh) = Fulfilled tt ->
   (fst (embedDocuments Fixtures.online (Many []) Fixtures.fresh)
      = Rejected InvalidInputError <->
    toTextArray (Many []) = [])) /\
  fst (embedDocuments Fixtures.online (Many []) Fixtures.fresh)
    = Rejected InvalidInputError.
Proof.
  assert (Hwf : well_formed Fixtures.fresh)
    by (constructor; simpl; [discriminate | discriminate | discriminate]).
  destruct (embedDocuments_empty_input Fixtures.online (Many [])
              Fixtures.fresh Hwf) as (H & _).
  split; [exact H|]. apply H; reflexivity.
Defined.

(** C4 as stated fails: when the model cannot be loaded,
    [embedDocuments([])] ends with the initialization failure, not with the
    empty-input error. *)
Lemma embedDocuments_empty_input_offline :
  toTextArray (Many []) = [] /\
  fst (embedDocuments Fixtures.offline (Many []) Fixtures.fresh)
    = Rejected (new_Error
        "Failed to generate embeddings: Failed to initialize embedding model: fetch failed") /\
  fst (embedDocuments Fixtures.offline (Many []) Fixtures.fresh)
    <> Rejected InvalidInputError.
Proof.
  split_and!; [reflexivity | reflexivity |].
  intros H. vm_compute in H. discriminate.
Qed.

(** *** A text that fails *)

(** C5, as the code has it.  With the service ready: a fulfilled call
    returns the embeddings of all the texts, in order; and when the model
    rejects one of the texts the call is rejected, with an [Error] whose
    message is the two prefixes followed by the message the model rejected
    some text of the input with.  The text itself is not part of it. *)
Theorem embedDocuments_all_or_nothing W texts s s1 m :
  initialize W s = (Fulfilled tt, s1) ->
  model s1 = Some m ->
  (forall vs s2, embedDocuments W texts s = (Fulfilled vs, s2) ->
     length vs = length (toTextArray texts) /\
     forall i t, toTextArray texts !! i = Some t ->
       exists result, m t = Fulfilled result /\ vs !! i = Some (data result)) /\
  ((exists t thrown, t ∈ toTextArray texts /\ m t = Rejected thrown) ->
   exists e s2 t thrown,
     embedDocuments W texts s = (Rejected e, s2) /\
     t ∈ toTextArray texts /\ m t = Rejected thrown /\
     e = new_Error
           ("Failed to generate embeddings: Failed to embed text: "
              +:+ message thrown)).
Proof.
  intros Hinit Hm.
  pose proof (embedDocuments_cases W texts s) as H. rewrite Hinit in H.
  split.
  - intros vs s2 Heq. rewrite Heq in H.
    destruct (toTextArray texts) as [|t0 ta] eqn:Hta; [done|].
    rewrite <- Hta in *. clear Hta t0 ta. destruct H as [Hvs _]. split.
    + apply (f_equal length) in Hvs. by rewrite !length_fmap in Hvs.
    + intros i t Hi. apply (f_equal (fun l => l !! i)) in Hvs.
      rewrite !list_lookup_fmap, Hi in Hvs. simpl in Hvs.
      destruct (vs !! i) as [v|] eqn:Hv; [|done].
      injection Hvs as Hvs. apply embed_text_fulfilled in Hvs
        as (m' & result & Hm' & Hr & ->).
      rewrite Hm in Hm'. injection Hm' as <-. by exists result.
  - intros (t & thrown & Ht & Hthrown).
    destruct (toTextArray texts) as [|t0 ta] eqn:Hta;
      [by apply elem_of_nil in Ht|].
    rewrite <- Hta in *. clear Hta t0 ta.
    destruct (embedDocuments W texts s) as [[vs|e] s2].
    + exfalso. destruct H as [Hvs _].
      apply list_elem_of_lookup in Ht as [i Hi].
      apply (f_equal (fun l => l !! i)) in Hvs.
      rewrite !list_lookup_fmap, Hi in Hvs. simpl in Hvs.
      destruct (vs !! i) as [v|]; [|done]. injection Hvs as Hvs.
      apply embed_text_fulfilled in Hvs as (m' & result & Hm' & Hr & _).
      rewrite Hm in Hm'. injection Hm' as <-. rewrite Hthrown in Hr. done.
    + destruct H as [(t' & e1 & Ht' & He1 & ->) _].
      apply embed_text_rejected in He1 as (original & -> & Ho).
      exists (documents_error (text_error original)), s2, t', original.
      split_and!; [done | done | by apply Ho | reflexivity].
Qed.

Lemma embedDocuments_all_or_nothing_witness :
  exists e s2 t thrown,
    embedDocuments Fixtures.misloaded (Many ["alpha"]) Fixtures.fresh
      = (Rejected e, s2) /\
    t ∈ ["alpha"] /\ Fixtures.refusing t = Rejected thrown /\
    e = new_Error
          ("Failed to generate embeddings: Failed to embed text: "
             +:+ message thrown).
Proof.
  apply (embedDocuments_all_or_nothing Fixtures.misloaded (Many ["alpha"])
           Fixtures.fresh
           (snd (initialize Fixtures.misloaded Fixtures.fresh))
           Fixtures.refusing); [reflexivity | reflexivity |].
  exists "alpha", (mkJsError "RangeError" "inference failed").
  split; [apply list_elem_of_here | reflexivity].
Defined.

(** C5 as stated fails: the error does not carry the failing text.  Two
    calls that fail on different texts end with the same error, so no
    reading of the error recovers the text. *)
Lemma embedDocuments_error_omits_text :
  fst (embedDocuments Fixtures.misloaded (Many ["alpha"]) Fixtures.fresh)
    = Rejected (new_Error
        "Failed to generate embeddings: Failed to embed text: inference failed") /\
  fst (embedDocuments Fixtures.misloaded (Many ["beta"]) Fixtures.fresh)
    = Rejected (new_Error
        "Failed to generate embeddings: Failed to embed text: inference failed") /\
  ~ exists identify : JsError -> string,
      forall text e,
        fst (embedDocuments Fixtures.misloaded (Many [text]) Fixtures.fresh)
          = Rejected e ->
        identify e = text.
Proof.
  split_and!; [reflexivity | reflexivity |].
  intros [identify H].
  pose proof (H "alpha" _ eq_refl) as Ha.
  pose proof (H "beta" _ eq_refl) as Hb.
  rewrite Ha in Hb. discriminate Hb.
Qed.

(** *** [embedQuery] *)

(** C9.  [embedQuery(text)] is [embedDocuments([text])] followed by taking
    its sole element: both leave the same state; when the one is fulfilled
    so is the other, with the same vector, which is the only element of
    what [embedDocuments] returned; when the one is rejected so is the
    other, [embedQuery] with its own prefix before the message. *)
Theorem embedQuery_refines_spec W text s :
  snd (embedQuery W text s) = snd (embedQuery_spec W text s) /\
  match fst (embedQuery_spec W text s), fst (embedQuery W text s) with
  | Fulfilled o, Fulfilled o' =>
      o' = o /\
      exists v, o = Some v /\
                fst (embedDocuments W (Many [text]) s) = Fulfilled [v]
  | Rejected e, Rejected e' =>
      fst (embedDocuments W (Many [text]) s) = Rejected e /\
      e' = new_Error ("Failed to generate query embedding: " +:+ message e)
  | _, _ => False
  end.
Proof.
  unfold embedQuery, embedQuery_spec, try_catch, bind, ret, throw.
  pose proof (embedDocuments_cases W (Many [text]) s) as H.
  destruct (initialize W s) as [[[]|e0] s1].
  - simpl in H. destruct (embedDocuments W (Many [text]) s) as [[vs|e] s2];
      simpl; [|done].
    destruct H as [Hvs _]. destruct vs as [|v [|v' vs]]; try done.
    split; [done|]. split; [done|]. by exists v.
  - rewrite H. simpl. done.
Qed.

(** *** The errors that leave the service *)



(** *** [healthCheck] and [getServiceInfo] *)

Lemma message_not_empty prefix c (e : JsError) :
  (String c prefix +:+ message e) <> "".
Proof. done. Qed.

(** C7.  In a well-formed state [healthCheck] returns a record and does
    not throw.  When [initialize] and [getEmbeddingDimension] are fulfilled
    the record is the healthy one, with the model name, the dimension,
    [initialized: true] and the timestamp; when one of them is rejected it
    is the unhealthy one, with the message of the error, which is not
    empty, and the timestamp. *)
Theorem healthCheck_never_raises W s :
  well_formed s ->
  exists record s',
    healthCheck W s = (Fulfilled record, s') /\
    match bind (initialize W) (fun _ => getEmbeddingDimension W) s with
    | (Fulfilled d, _) =>
        record = {| HealthRecord.status := "healthy";
                    HealthRecord.model := Some (modelName s);
                    HealthRecord.dimension := Some d;
                    HealthRecord.initialized := Some true;
                    HealthRecord.error := None;
                    HealthRecord.timestamp := now W |}
    | (Rejected e, _) =>
        record = {| HealthRecord.status := "unhealthy";
                    HealthRecord.model := None;
                    HealthRecord.dimension := None;
                    HealthRecord.initialized := None;
                    HealthRecord.error := Some (message e);
                    HealthRecord.timestamp := now W |} /\
        message e <> ""
    end.
Proof.
  intros Hwf. unfold healthCheck, try_catch, bind, get, ret.
  destruct (initialize W s) as [[[]|e0] s1] eqn:Hinit.
  - destruct (initialize_fulfilled W _ _ Hwf Hinit) as (Hi1 & _ & _).
    pose proof (keeps_initialize W s) as (Hname1 & _ & _).
    rewrite Hinit in Hname1. simpl in Hname1.
    pose proof (keeps_getEmbeddingDimension W s1) as (Hname2 & Hi2 & _).
    destruct (getEmbeddingDimension W s1) as [[d|e] s2] eqn:Hdim;
      simpl in *.
    + eexists _, _. split; [reflexivity|].
      rewrite (Hi2 Hi1), Hname2, Hname1. done.
    + eexists _, _. split; [reflexivity|]. split; [done|].
      unfold getEmbeddingDimension in Hdim.
      apply try_catch_rethrow in Hdim as (e1 & _ & ->).
      apply message_not_empty.
  - eexists _, _. split; [reflexivity|]. split; [done|].
    apply (initialize_rejected W _ _ _ Hwf) in Hinit as [original ->].
    apply message_not_empty.
Qed.

Lemma healthCheck_never_raises_witness :
  exists record s',
    healthCheck Fixtures.offline Fixtures.fresh = (Fulfilled record, s') /\
    record = {| HealthRecord.status := "unhealthy";
                HealthRecord.model := None;
                HealthRecord.dimension := None;
                HealthRecord.initialized := None;
                HealthRecord.error :=
                  Some "Failed to initialize embedding model: fetch failed";
                HealthRecord.timestamp := "2026-01-01T00:00:00.000Z" |} /\
    "Failed to initialize embedding model: fetch failed" <> "".
Proof.
  apply (healthCheck_never_raises Fixtures.offline Fixtures.fresh).
  constructor; simpl; discriminate.
Defined.

(** C8, as the code has it.  [getServiceInfo] returns a record and does not
    throw: [healthCheck] never throws, so the [catch] branch with
    [status: 'error'] is never taken.  The record has the static name and
    descriptors and the model name; its status and dimension are those of
    the health record, so a failed health check shows as
    [status: 'unhealthy'] with no dimension, and the error message of the
    health record is not copied. *)
Theorem getServiceInfo_copies_health W s :
  exists health info s',
    healthCheck W s = (Fulfilled health, s') /\
    getServiceInfo W s = (Fulfilled info, s') /\
    info = {| ServiceInfo.name := "Transformers.js Embeddings";
              ServiceInfo.model := modelName s;
              ServiceInfo.status := HealthRecord.status health;
              ServiceInfo.dimension := HealthRecord.dimension health;
              ServiceInfo.backend := Some "local";
              ServiceInfo.cost := Some "free";
              ServiceInfo.rateLimit := Some "none";
              ServiceInfo.error := None |} /\
    (HealthRecord.status health = "healthy" \/
     (HealthRecord.status health = "unhealthy" /\
      HealthRecord.dimension health = None /\
      is_Some (HealthRecord.error health))).
Proof.
  pose proof (keeps_healthCheck W s) as (Hname & _ & _).
  unfold getServiceInfo, try_catch, bind, get, ret.
  assert (Hh : exists health s',
             healthCheck W s = (Fulfilled health, s') /\
             (HealthRecord.status health = "healthy" \/
              (HealthRecord.status health = "unhealthy" /\
               HealthRecord.dimension health = None /\
               is_Some (HealthRecord.error health)))).
  { unfold healthCheck, try_catch, bind, get, ret.
    destruct (initialize W s) as [[[]|e0] s1].
    - destruct (getEmbeddingDimension W s1) as [[d|e] s2].
      + eexists _, _. split; [reflexivity|]. by left.
      + eexists _, _. split; [reflexivity|]. right. simpl. eauto.
    - eexists _, _. split; [reflexivity|]. right. simpl. eauto. }
  destruct Hh as (health & s' & Hh & Hstatus).
  rewrite Hh in Hname |- *. simpl in Hname.
  eexists health, _, s'. rewrite Hname. done.
Qed.

(** C8 as stated fails: when the model cannot be loaded the health check
    fails, and the record of [getServiceInfo] has [status: 'unhealthy'], not
    ['error'], and no error message. *)
Lemma getServiceInfo_offline :
  fst (healthCheck Fixtures.offline Fixtures.fresh)
    = Fulfilled {| HealthRecord.status := "unhealthy";
                   HealthRecord.model := None;
                   HealthRecord.dimension := None;
                   HealthRecord.initialized := None;
                   HealthRecord.error :=
                     Some "Failed to initialize embedding model: fetch failed";
                   HealthRecord.timestamp := "2026-01-01T00:00:00.000Z" |} /\
  fst (getServiceInfo Fixtures.offline Fixtures.fresh)
    = Fulfilled {| ServiceInfo.name := "Transformers.js Embeddings";
                   ServiceInfo.model := "Xenova/all-MiniLM-L6-v2";
                   ServiceInfo.status := "unhealthy";
                   ServiceInfo.dimension := None;
                   ServiceInfo.backend := Some "local";
                   ServiceInfo.cost := Some "free";
                   ServiceInfo.rateLimit := Some "none";
                   ServiceInfo.error := None |}.
Proof. split; reflexivity. Qed.

End SequentialFacts.

(** ** Several calls in flight *)

Module EventLoopFacts.
Import EventLoop.

Lemma invariant_start name : invariant (start name).
Proof.
  constructor; simpl; try done.
  intros c h Hc. by apply elem_of_nil in Hc.
Qed.

(** [initialize()] keeps the invariant and hands out a good handle; it
    touches neither the calls nor a settled promise. *)
Lemma initialize_invariant l :
  invariant l ->
  invariant (snd (initialize l)) /\
  good_handle (snd (initialize l)) (fst (initialize l)) /\
  calls (snd (initialize l)) = calls l /\
  (forall o, promises l !! 0 = Some (Some o) -> snd (initialize l) = l).
Proof.
  intros Hinv. pose proof Hinv as [Hloads Hprom Hready Hrej Hcalls].
  unfold initialize.
  destruct (isInitialized (this l)) eqn:Hi; simpl.
  { split_and!; done. }
  destruct (initializationPromise (this l)) as [p|] eqn:Hp; simpl.
  { destruct Hprom. split_and!; done. }
  rewrite Hprom in *. split_and!; simpl; try done.
  constructor; simpl; try done.
  - simpl in Hloads. lia.
  - rewrite Hi. split; [done|]. intros [=].
  - intros c h Hc Hh. specialize (Hcalls c h Hc Hh).
    destruct h as [|q]; simpl in *; [congruence|].
    rewrite Hprom in Hcalls. simpl in Hcalls. lia.
Qed.

Lemma good_handle_same l l' h :
  isInitialized (this l') = isInitialized (this l) ->
  promises l' = promises l ->
  good_handle l h -> good_handle l' h.
Proof. intros Hi Hp. destruct h; simpl; congruence. Qed.

Lemma invariant_add_call l c :
  invariant l ->
  (forall h, awaiting c = Some h -> good_handle l h) ->
  invariant (mkLoop (this l) (promises l) (calls l ++ [c])).
Proof.
  intros [Hloads Hprom Hready Hrej Hcalls] Hc. constructor; simpl; try done.
  intros c' h Hin Hh. apply elem_of_app in Hin as [Hin|Hin].
  - by apply (Hcalls c').
  - apply list_elem_of_singleton in Hin as ->. by apply Hc.
Qed.

Lemma invariant_step ev l l' :
  invariant l -> step ev l = Some l' -> invariant l'.
Proof.
  intros Hinv. destruct ev as [| |p loaded|c]; simpl.
  - destruct (initialize_invariant l Hinv) as (Hinv' & Hh & _).
    destruct (initialize l) as [h l1]; simpl in *. intros [= <-].
    apply invariant_add_call; [done|]. by intros h' [= <-].
  - unfold getEmbeddingDimension_calls.
    destruct (initialize_invariant l Hinv) as (Hinv' & Hh & _).
    destruct (initialize l) as [h l1]; simpl in *. intros [= <-].
    apply invariant_add_call; [done|]. by intros h' [= <-].
  - destruct (promises l !! p) as [[o|]|] eqn:Hp; try done. intros [= <-].
    destruct Hinv as [Hloads Hprom Hready Hrej Hcalls].
    assert (Hlen : length (promises l) = 1 /\ p = 0).
    { apply lookup_lt_Some in Hp.
      destruct (initializationPromise (this l)); [lia|].
      rewrite Hprom in Hp. simpl in Hp. lia. }
    destruct Hlen as [Hlen ->].
    destruct (promises l) as [|[o|] [|? ?]] eqn:Hpl; try done.
    assert (Hi : isInitialized (this l) = false).
    { destruct (isInitialized (this l)); [|done].
      by destruct Hready as [Hr _]; specialize (Hr eq_refl). }
    assert (Hhandles : forall q (c : Call) h,
              c ∈ calls l -> awaiting c = Some h ->
              match h with
              | Immediately => False
              | OnPromise p => p = 0 /\ length [q : option (Outcome unit)] = 1
              end).
    { intros q c h Hc Hh. specialize (Hcalls c h Hc Hh).
      destruct h; simpl in *; [congruence|]. by destruct Hcalls. }
    destruct loaded as [m|e]; constructor; simpl; rewrite ?Hpl; simpl;
      try done.
    + by destruct (initializationPromise (this l)).
    + intros c h Hc Hh. specialize (Hhandles None c h Hc Hh).
      by destruct h.
    + by destruct (initializationPromise (this l)).
    + rewrite Hi. split; [done|]. intros [=].
    + intros e' [= <-]. eauto.
    + intros c h Hc Hh. specialize (Hhandles None c h Hc Hh).
      by destruct h.
  - destruct (calls l !! c) as [[h|st]|] eqn:Hc; try done.
    destruct (getEmbeddingDimension_resumes st l) as [[st' l1]|] eqn:Hres;
      [|done].
    intros [= <-].
    assert (Hgoal : invariant l1 /\ calls l1 = calls l /\
              forall h, awaiting (DimensionCall st') = Some h ->
                        good_handle l1 h).
    { destruct st as [h|h|pending|o]; simpl in Hres.
      - destruct (observed l h) as [[[]|e]|]; try done.
        + destruct (truthy _).
          * injection Hres as <- <-. done.
          * destruct (initialize_invariant l Hinv) as (Hinv' & Hh & Hcs & _).
            destruct (initialize l) as [h' l2]; simpl in *.
            injection Hres as <- <-. split_and!; [done|done|].
            by intros h0 [= <-].
        + injection Hres as <- <-. done.
      - destruct (observed l h) as [[[]|e]|]; try done.
        + injection Hres as <- <-. split_and!; [|done|done].
          destruct Hinv. by constructor.
        + injection Hres as <- <-. done.
      - destruct pending as [v|e]; injection Hres as <- <-; [|done].
        split_and!; [|done|done]. destruct Hinv. by constructor.
      - done. }
    destruct Hgoal as ([Hloads Hprom Hready Hrej Hcalls] & Hcs & Hh).
    constructor; simpl; try done.
    intros c' h Hin Hawait.
    apply list_elem_of_lookup in Hin as [i Hi].
    destruct (decide (c = i)) as [->|Hne].
    + rewrite list_lookup_insert_eq in Hi
        by (rewrite Hcs; by eapply lookup_lt_Some).
      injection Hi as <-. by apply Hh.
    + rewrite list_lookup_insert_ne in Hi by done.
      apply (Hcalls c'); [|done]. apply list_elem_of_lookup. eauto.
Qed.

Lemma invariant_run evs : forall l l',
  invariant l -> run evs l = Some l' -> invariant l'.
Proof.
  induction evs as [|ev evs IH]; intros l l' Hinv; simpl.
  - by intros [= <-].
  - destruct (step ev l) as [l1|] eqn:Hstep; [|done].
    apply IH. by eapply invariant_step.
Qed.

Lemma invariant_reachable name evs l :
  run evs (start name) = Some l -> invariant l.
Proof. apply invariant_run, invariant_start. Qed.

(** A settled promise stays as it is. *)
Lemma settled_stays ev l l' o :
  invariant l -> promises l !! 0 = Some (Some o) ->
  step ev l = Some l' -> promises l' !! 0 = Some (Some o).
Proof.
  intros Hinv Ho.
  destruct (initialize_invariant l Hinv) as (_ & _ & _ & Hsame).
  specialize (Hsame o Ho).
  destruct ev as [| |p loaded|c]; simpl.
  - destruct (initialize l) as [h l1]; simpl in *. subst l1.
    by intros [= <-].
  - unfold getEmbeddingDimension_calls.
    destruct (initialize l) as [h l1]; simpl in *. subst l1.
    by intros [= <-].
  - destruct (promises l !! p) as [[o'|]|] eqn:Hp; try done.
    assert (p = 0) as ->.
    { apply lookup_lt_Some in Hp. destruct Hinv as [_ Hprom _ _ _].
      destruct (initializationPromise (this l)); [lia|].
      rewrite Hprom in Hp. simpl in Hp. lia. }
    congruence.
  - destruct (calls l !! c) as [[h|st]|]; try done.
    destruct (getEmbeddingDimension_resumes st l) as [[st' l1]|] eqn:Hres;
      [|done].
    intros [= <-]. simpl.
    destruct st as [h|h|pending|o']; simpl in Hres.
    + destruct (observed l h) as [[[]|e]|]; try done.
      * destruct (truthy _); [by injection Hres as <- <-|].
        destruct (initialize l) as [h' l2]; simpl in *. subst l2.
        by injection Hres as <- <-.
      * by injection Hres as <- <-.
    + destruct (observed l h) as [[[]|e]|]; try done;
        by injection Hres as <- <-.
    + destruct pending; by injection Hres as <- <-.
    + done.
Qed.

Lemma settled_stays_run evs : forall l l' o,
  invariant l -> promises l !! 0 = Some (Some o) ->
  run evs l = Some l' -> promises l' !! 0 = Some (Some o).
Proof.
  induction evs as [|ev evs IH]; intros l l' o Hinv Ho; simpl.
  - by intros [= <-].
  - destruct (step ev l) as [l1|] eqn:Hstep; [|done].
    apply IH; [by eapply invariant_step | by eapply settled_stays].
Qed.

(** What a good handle shows is what the promise number 0 holds. *)
Lemma observed_good l h o :
  invariant l -> good_handle l h -> observed l h = Some o ->
  promises l !! 0 = Some (Some o).
Proof.
  intros [_ _ Hready _ _] Hh. destruct h as [|p]; simpl in *.
  - intros [= <-]. by apply Hready.
  - destruct Hh as [-> _].
    destruct (promises l !! 0) as [[o'|]|]; simpl; congruence.
Qed.

(** *** One call alone *)

(** A call of [getEmbeddingDimension] on a new service, alone on the loop,
    ends as the call in [Sequential] does and leaves the same fields. *)
Lemma solo_getEmbeddingDimension W name :
  exists evs l,
    run (Call_getEmbeddingDimension :: evs) (start name) = Some l /\
    calls l =
      [DimensionCall
         (Finished
            (fst (Sequential.getEmbeddingDimension W (constructor name))))] /\
    agree l (snd (Sequential.getEmbeddingDimension W (constructor name))).
Proof.
  remember (Sequential.getEmbeddingDimension W (constructor name)) as r eqn:Hr.
  unfold Sequential.getEmbeddingDimension, Sequential.try_catch,
    Sequential.bind, Sequential.initialize, Sequential._initializeModel,
    Sequential.try_catch, Sequential.bind, Sequential.get,
    Sequential.call_pipeline, Sequential.modify, Sequential.throw in Hr.
  simpl in Hr.
  destruct (pipeline W 0 (configuredModelName name)) as [m|e]; simpl in Hr.
  - unfold Sequential.embedQuery, Sequential.embedDocuments,
      Sequential.try_catch, Sequential.bind, Sequential.ret,
      Sequential.initialize in Hr.
    simpl in Hr. rewrite SequentialFacts.embed_batches_one in Hr.
    simpl in Hr.
    exists [Pipeline_settles 0 (Fulfilled m); Resume 0; Resume 0; Resume 0].
    simpl. destruct (embed_text (Some m) "test") as [v|e]; simpl in *;
      subst r; (eexists; split; [reflexivity|]); simpl;
      (split; [reflexivity|]); by repeat split.
  - subst r. exists [Pipeline_settles 0 (Rejected e); Resume 0].
    eexists. split; [reflexivity|]. simpl. split; [reflexivity|].
    by repeat split.
Qed.

(** *** One load, whoever calls *)

(** C2.  Whatever calls are made and however they interleave with the
    load: [pipeline] is called at most once; the callers that have to wait
    all wait on the same promise; any two callers that see an outcome see
    the same one; and on a ready service [initialize()] returns at once and
    changes nothing. *)
Theorem single_flight name evs l :
  run evs (start name) = Some l ->
  loads (this l) <= 1 /\
  (forall c p, c ∈ calls l -> awaiting c = Some (OnPromise p) -> p = 0) /\
  (forall c1 c2 h1 h2 o1 o2,
     c1 ∈ calls l -> c2 ∈ calls l ->
     awaiting c1 = Some h1 -> awaiting c2 = Some h2 ->
     observed l h1 = Some o1 -> observed l h2 = Some o2 -> o1 = o2) /\
  (isInitialized (this l) = true -> initialize l = (Immediately, l)).
Proof.
  intros Hrun. pose proof (invariant_reachable _ _ _ Hrun) as Hinv.
  pose proof Hinv as [Hloads Hprom Hready Hrej Hcalls]. split_and!.
  - destruct (initializationPromise (this l)); [lia|].
    rewrite Hloads, Hprom. simpl. lia.
  - intros c p Hc Hh. by destruct (Hcalls c _ Hc Hh) as [-> _].
  - intros c1 c2 h1 h2 o1 o2 Hc1 Hc2 Hh1 Hh2 Ho1 Ho2.
    apply (observed_good l h1) in Ho1; [|done|by apply (Hcalls c1)].
    apply (observed_good l h2) in Ho2; [|done|by apply (Hcalls c2)].
    congruence.
  - intros Hi. unfold initialize. by rewrite Hi.
Qed.

Lemma single_flight_witness :
  loads (this Fixtures.after_three_callers) <= 1 /\
  (forall c p, c ∈ calls Fixtures.after_three_callers ->
     awaiting c = Some (OnPromise p) -> p = 0) /\
  (forall c1 c2 h1 h2 o1 o2,
     c1 ∈ calls Fixtures.after_three_callers ->
     c2 ∈ calls Fixtures.after_three_callers ->
     awaiting c1 = Some h1 -> awaiting c2 = Some h2 ->
     observed Fixtures.after_three_callers h1 = Some o1 ->
     observed Fixtures.after_three_callers h2 = Some o2 -> o1 = o2) /\
  (isInitialized (this Fixtures.after_three_callers) = true ->
   initialize Fixtures.after_three_callers
     = (Immediately, Fixtures.after_three_callers)).
Proof.
  apply (single_flight None Fixtures.three_callers
           Fixtures.after_three_callers).
  reflexivity.
Defined.

(** *** A load that fails *)

(** C1, as the code has it.  When the load fails, every caller that waits
    sees the error, an [Error] with ['Failed to initialize embedding
    model: '] before the message of the failure.  [isInitialized] stays
    unset, but the rejected promise stays in [initializationPromise]: from
    then on, whatever happens, [pipeline] is not called again, and every
    call of [initialize()] returns that rejected promise and changes
    nothing. *)
Theorem failed_initialization_is_kept name evs l original l1 evs' l2 :
  run evs (start name) = Some l ->
  step (Pipeline_settles 0 (Rejected original)) l = Some l1 ->
  run evs' l1 = Some l2 ->
  isInitialized (this l2) = false /\
  loads (this l2) = 1 /\
  init_state l2 = initializing /\
  (forall c h, c ∈ calls l2 -> awaiting c = Some h ->
     observed l2 h =
       Some (Rejected
               (new_Error ("Failed to initialize embedding model: "
                             +:+ message original)))) /\
  initialize l2 = (OnPromise 0, l2).
Proof.
  intros Hrun Hstep Hrun'.
  pose proof (invariant_reachable _ _ _ Hrun) as Hinv.
  pose proof (invariant_step _ _ _ Hinv Hstep) as Hinv1.
  pose proof (invariant_run _ _ _ Hinv1 Hrun') as Hinv2.
  assert (H1 : promises l1 !! 0
               = Some (Some (Rejected (initialization_error original)))).
  { simpl in Hstep. destruct (promises l !! 0) as [[o|]|] eqn:Hp; try done.
    injection Hstep as <-. simpl.
    apply list_lookup_insert_eq. by eapply lookup_lt_Some. }
  pose proof (settled_stays_run _ _ _ _ Hinv1 H1 Hrun') as H2.
  pose proof Hinv2 as [Hloads Hprom Hready Hrej Hcalls].
  assert (Hi : isInitialized (this l2) = false).
  { destruct (isInitialized (this l2)); [|done].
    destruct Hready as [Hr _]. specialize (Hr eq_refl). congruence. }
  assert (Hp : initializationPromise (this l2) = Some 0
               /\ length (promises l2) = 1).
  { destruct (initializationPromise (this l2)) as [p|].
    - by destruct Hprom as [-> ?].
    - by rewrite Hprom in H2. }
  destruct Hp as [Hp Hlen].
  split_and!.
  - done.
  - lia.
  - unfold init_state. by rewrite Hi, Hp.
  - intros c h Hc Hh. specialize (Hcalls c h Hc Hh).
    destruct h as [|p]; simpl in *; [congruence|].
    destruct Hcalls as [-> _]. by rewrite H2.
  - unfold initialize. by rewrite Hi, Hp.
Qed.

Lemma failed_initialization_is_kept_witness :
  isInitialized (this Fixtures.third_caller_after_failure) = false /\
  loads (this Fixtures.third_caller_after_failure) = 1 /\
  init_state Fixtures.third_caller_after_failure = initializing /\
  (forall c h, c ∈ calls Fixtures.third_caller_after_failure ->
     awaiting c = Some h ->
     observed Fixtures.third_caller_after_failure h =
       Some (Rejected
               (new_Error ("Failed to initialize embedding model: "
                             +:+ "fetch failed")))) /\
  initialize Fixtures.third_caller_after_failure
    = (OnPromise 0, Fixtures.third_caller_after_failure).
Proof.
  apply (failed_initialization_is_kept None Fixtures.two_callers
           Fixtures.load_pending (mkJsError "TypeError" "fetch failed")
           Fixtures.load_failed [Call_initialize]
           Fixtures.third_caller_after_failure);
    reflexivity.
Defined.

(** C1 as stated fails: after a failed load the service is not back in the
    state [uninitialized], and a second call of [initialize()] starts no
    load; it gets the promise of the failed attempt. *)
Lemma failed_initialization_is_not_retried :
  run Fixtures.retry_after_failure (start None)
    = Some Fixtures.second_caller_after_failure /\
  init_state Fixtures.second_caller_after_failure = initializing /\
  initializationPromise (this Fixtures.second_caller_after_failure)
    = Some 0 /\
  promises Fixtures.second_caller_after_failure
    = [Some (Rejected (new_Error
         "Failed to initialize embedding model: fetch failed"))] /\
  loads (this Fixtures.second_caller_after_failure) = 1 /\
  calls Fixtures.second_caller_after_failure
    = [InitializeCall (OnPromise 0); InitializeCall (OnPromise 0)].
Proof. split_and!; vm_compute; reflexivity. Qed.

(** *** Two calls of [getEmbeddingDimension] at once *)

(** C6 fails on the code: two calls that overlap both find
    [_cachedDimension] unset, and [this.model] is called on ['test']
    twice. *)
Lemma overlapping_dimension_calls_probe_twice :
  run Fixtures.two_dimension_calls (start None)
    = Some Fixtures.after_two_dimension_calls /\
  inferred (this Fixtures.after_two_dimension_calls) = ["test"; "test"] /\
  calls Fixtures.after_two_dimension_calls
    = [InitializeCall (OnPromise 0);
       DimensionCall (Finished (Fulfilled 2));
       DimensionCall (Finished (Fulfilled 2))].
Proof. split_and!; vm_compute; reflexivity. Qed.

End EventLoopFacts.

(** * More about the embedding service *)

Module SequentialMore.
Import Sequential SequentialFacts.

Section Helpers.

Variable W : World.

Lemma set_inferred_twice {P} l1 l2 (s : Service P) :
  set_inferred l2 (set_inferred l1 s) = set_inferred l2 s.
Proof. reflexivity. Qed.

Lemma initialize_ready s :
  isInitialized s = true -> initialize W s = (Fulfilled tt, s).
Proof. intros Hi. unfold initialize. by rewrite Hi. Qed.

(** After a rejected [initialize] the rejected promise is the stored one. *)
Lemma initialize_rejected_stored s e s1 :
  initialize W s = (Rejected e, s1) ->
  isInitialized s1 = false /\ initializationPromise s1 = Some (Rejected e).
Proof.
  intros H.
  destruct (initialize_cases W s)
    as [[Hi Heq]|[(Hi & p & Hp & Heq)|(Hi & Hp & Heq)]].
  - congruence.
  - rewrite Heq in H. injection H as -> <-. done.
  - destruct (pipeline W (loads s) (modelName s)) as [m|e0];
      rewrite Heq in H; [done|]. by injection H as <- <-.
Qed.

Lemma initialize_rejected_again s e s1 :
  initialize W s = (Rejected e, s1) -> initialize W s1 = (Rejected e, s1).
Proof.
  intros H. apply initialize_rejected_stored in H as [Hi Hp].
  unfold initialize. by rewrite Hi, Hp.
Qed.

(** When the loop ends with an error, it has called the model on a whole
    number of batches: all of them went well but the last, where a text was
    rejected with that error. *)
Lemma embed_batches_rejected ta i acc s e s' :
  embed_batches W ta i acc s = (Rejected e, s') ->
  exists k,
    s' = set_inferred (inferred s ++ take (batchSize * S k) (drop i ta)) s /\
    (exists t, t ∈ take batchSize (drop (i + batchSize * k) ta) /\
               embed_text (model s) t = Rejected e) /\
    (forall t, t ∈ take (batchSize * k) (drop i ta) ->
               exists v, embed_text (model s) t = Fulfilled v).
Proof.
  funelim (embed_batches W ta i acc s); clear Heqcall; [|done].
  rewrite slice_batch in *.
  pose proof (Promise_all_spec
                (map (embed_text (model s)) (take batchSize (drop i textArray)))
                (completion W i)) as HP.
  destruct (Promise_all _ _) as [bvs|e0].
  - intros Hrec. apply H in Hrec as (k & -> & (t & Ht & He) & Hbefore).
    change (model (set_inferred ?l s)) with (model s) in *.
    change (inferred (set_inferred ?l s)) with l in *.
    exists (S k). split_and!.
    + rewrite set_inferred_twice. f_equal.
      rewrite <- app_assoc. f_equal.
      rewrite <- drop_drop.
      replace (batchSize * S (S k)) with (batchSize + batchSize * S k) by lia.
      by rewrite take_take_drop.
    + exists t. split; [|done].
      by replace (i + batchSize * S k) with (i + batchSize + batchSize * k)
        by lia.
    + intros t' Ht'.
      replace (batchSize * S k) with (batchSize + batchSize * k) in Ht' by lia.
      rewrite <- take_take_drop in Ht'. apply elem_of_app in Ht' as [Ht'|Ht'].
      * apply list_elem_of_lookup in Ht' as [j Hj].
        apply (f_equal (fun l => l !! j)) in HP.
        rewrite !list_lookup_fmap, Hj in HP. simpl in HP.
        destruct (bvs !! j) as [v|]; [|done]. injection HP as HP. eauto.
      * apply Hbefore. by rewrite drop_drop in Ht'.
  - intros [= <- <-]. exists 0. split_and!.
    + by rewrite Nat.mul_1_r.
    + destruct HP as [j Hj].
      apply list_lookup_fmap_Some in Hj as (t & Ht & He).
      exists t. split; [|done]. rewrite Nat.mul_0_r, Nat.add_0_r.
      apply list_elem_of_lookup. eauto.
    + intros t Ht. rewrite Nat.mul_0_r in Ht. by apply elem_of_nil in Ht.
Qed.

(** [getEmbeddingDimension] on a ready service whose cache does not
    count. *)
Lemma getEmbeddingDimension_ready_uncached s :
  isInitialized s = true -> truthy (_cachedDimension s) = false ->
  getEmbeddingDimension W s =
    match embed_text (model s) "test" with
    | Fulfilled v =>
        (Fulfilled (length v),
         set_cachedDimension (Some (length v))
           (set_inferred (inferred s ++ ["test"]) s))
    | Rejected e0 =>
        (Rejected (dimension_error (query_error (documents_error e0))),
         set_inferred (inferred s ++ ["test"]) s)
    end.
Proof.
  intros Hi Hc.
  unfold getEmbeddingDimension, try_catch, bind, get.
  rewrite (initialize_ready s Hi), Hc.
  unfold embedQuery, embedDocuments, try_catch, bind, ret, throw, modify.
  rewrite (initialize_ready s Hi). simpl.
  rewrite embed_batches_one.
  by destruct (embed_text (model s) "test").
Qed.

End Helpers.

(** X1.  On a ready service a call of [embedDocuments] that is fulfilled
    has called the model on the texts of the input, once each and in their
    order, and has changed nothing else: no load, no cached dimension. *)
Theorem embedDocuments_calls_model_once_per_text W texts s vs s2 :
  isInitialized s = true ->
  embedDocuments W texts s = (Fulfilled vs, s2) ->
  s2 = set_inferred (inferred s ++ toTextArray texts) s.
Proof.
  intros Hi Heq. pose proof (embedDocuments_cases W texts s) as H.
  rewrite (initialize_ready W s Hi) in H.
  destruct (toTextArray texts) as [|t0 ta] eqn:Hta; [congruence|].
  rewrite <- Hta in *. rewrite Heq in H. by destruct H as [_ ->].
Qed.

Lemma embedDocuments_calls_model_once_per_text_witness :
  set_inferred ["the cat sat"; "a cat is sitting"] Fixtures.ready
  = set_inferred
      (inferred Fixtures.ready
         ++ toTextArray (Many ["the cat sat"; "a cat is sitting"]))
      Fixtures.ready.
Proof.
  apply (embedDocuments_calls_model_once_per_text Fixtures.online
           (Many ["the cat sat"; "a cat is sitting"]) Fixtures.ready
           [[1%float; 0%float]; [1%float; 0%float]]).
  - reflexivity.
  - vm_compute. reflexivity.
Defined.

(** X2.  On a ready service a call of [embedDocuments] on a non-empty
    input that is rejected has called the model on the texts of the first
    [k + 1] batches and on no later text: the texts of the first [k]
    batches were all embedded, a text of the batch after them was rejected,
    and the error of the call is the error of that text. *)
Theorem embedDocuments_stops_at_failing_batch W texts s e s2 :
  isInitialized s = true ->
  toTextArray texts <> [] ->
  embedDocuments W texts s = (Rejected e, s2) ->
  exists k t e0,
    s2 = set_inferred
           (inferred s ++ take (batchSize * S k) (toTextArray texts)) s /\
    t ∈ slice (toTextArray texts) (batchSize * k) (batchSize * k + batchSize) /\
    embed_text (model s) t = Rejected e0 /\
    e = new_Error ("Failed to generate embeddings: " +:+ message e0) /\
    forall t', t' ∈ take (batchSize * k) (toTextArray texts) ->
               exists v, embed_text (model s) t' = Fulfilled v.
Proof.
  intros Hi Hne Heq.
  unfold embedDocuments in Heq.
  apply try_catch_rethrow in Heq as (e0 & Hbody & ->).
  unfold bind in Hbody. rewrite (initialize_ready W s Hi) in Hbody.
  cbv zeta in Hbody.
  destruct (toTextArray texts) as [|t0 ta] eqn:Hta; [done|].
  rewrite <- Hta in *. replace (length (toTextArray texts) =? 0) with false
    in Hbody by (by rewrite Hta).
  apply embed_batches_rejected in Hbody as (k & -> & (t & Ht & He) & Hbefore).
  rewrite drop_0 in *. exists k, t, e0. split_and!; try done.
  rewrite slice_batch. done.
Qed.

Lemma embedDocuments_stops_at_failing_batch_witness :
  exists k t e0,
    set_inferred (take 16 Fixtures.texts_with_a_bad_one) Fixtures.ready_choosy
    = set_inferred
        (inferred Fixtures.ready_choosy
           ++ take (batchSize * S k)
                (toTextArray (Many Fixtures.texts_with_a_bad_one)))
        Fixtures.ready_choosy /\
    t ∈ slice (toTextArray (Many Fixtures.texts_with_a_bad_one))
          (batchSize * k) (batchSize * k + batchSize) /\
    embed_text (model Fixtures.ready_choosy) t = Rejected e0 /\
    new_Error "Failed to generate embeddings: Failed to embed text: cannot embed"
    = new_Error ("Failed to generate embeddings: " +:+ message e0) /\
    forall t', t' ∈ take (batchSize * k)
                      (toTextArray (Many Fixtures.texts_with_a_bad_one)) ->
               exists v, embed_text (model Fixtures.ready_choosy) t'
                         = Fulfilled v.
Proof.
  apply (embedDocuments_stops_at_failing_batch Fixtures.backwards
           (Many Fixtures.texts_with_a_bad_one) Fixtures.ready_choosy).
  - reflexivity.
  - discriminate.
  - vm_compute. reflexivity.
Defined.

(** X3.  Whether a call of [embedDocuments] is fulfilled, and with which
    vectors, does not depend on the order in which the computations of a
    batch settle: two worlds with the same loads give the same fulfilled
    results. *)
Theorem embedDocuments_outcome_independent_of_timing W W' texts s vs :
  (forall n name, pipeline W n name = pipeline W' n name) ->
  fst (embedDocuments W texts s) = Fulfilled vs <->
  fst (embedDocuments W' texts s) = Fulfilled vs.
Proof.
  intros Hsame.
  assert (Hinit : initialize W s = initialize W' s).
  { unfold initialize, _initializeModel, try_catch, bind, get, call_pipeline,
      modify, throw. by rewrite Hsame. }
  assert (Hone : forall V V', initialize V s = initialize V' s ->
            fst (embedDocuments V texts s) = Fulfilled vs ->
            fst (embedDocuments V' texts s) = Fulfilled vs).
  { intros V V' HVV Hvs.
    pose proof (embedDocuments_cases V texts s) as H.
    pose proof (embedDocuments_cases V' texts s) as H'.
    rewrite <- HVV in H'.
    destruct (initialize V s) as [[[]|e0] s1].
    - destruct (toTextArray texts) as [|t0 ta] eqn:Hta.
      { rewrite H in Hvs. done. }
      rewrite <- Hta in *.
      destruct (embedDocuments V texts s) as [[ws|e] s2]; [|done].
      simpl in Hvs. injection Hvs as ->. destruct H as [Hvs _].
      destruct (embedDocuments V' texts s) as [[ws|e] s2']; simpl.
      + destruct H' as [Hws _]. rewrite Hvs in Hws.
        f_equal. symmetry. by apply fmap_Fulfilled_inj.
      + destruct H' as [(t & e1 & Ht & He1 & _) _].
        apply list_elem_of_lookup in Ht as [j Hj].
        apply (f_equal (fun l => l !! j)) in Hvs.
        rewrite !list_lookup_fmap, Hj in Hvs. simpl in Hvs.
        rewrite He1 in Hvs. by destruct (vs !! j).
    - rewrite H in Hvs. done. }
  split; apply Hone; done.
Qed.

Lemma embedDocuments_outcome_independent_of_timing_witness :
  fst (embedDocuments Fixtures.online (Many ["the cat sat"; "a cat is sitting"])
         Fixtures.fresh)
    = Fulfilled [[1%float; 0%float]; [1%float; 0%float]] <->
  fst (embedDocuments Fixtures.online_in_order
         (Many ["the cat sat"; "a cat is sitting"]) Fixtures.fresh)
    = Fulfilled [[1%float; 0%float]; [1%float; 0%float]].
Proof.
  apply (embedDocuments_outcome_independent_of_timing Fixtures.online
           Fixtures.online_in_order).
  reflexivity.
Defined.

(** X4.  Once [initialize] has been rejected, every method fails with the
    error of that attempt and touches nothing: [embedDocuments],
    [embedQuery] and [getEmbeddingDimension] are rejected with their prefix
    before its message, and [healthCheck] reports it as unhealthy; no load
    is started and the model is not called. *)
Theorem failed_initialization_fails_every_method W s e s1 :
  initialize W s = (Rejected e, s1) ->
  (forall texts,
     embedDocuments W texts s1 = (Rejected (documents_error e), s1)) /\
  (forall text,
     embedQuery W text s1
       = (Rejected (query_error (documents_error e)), s1)) /\
  getEmbeddingDimension W s1 = (Rejected (dimension_error e), s1) /\
  healthCheck W s1
    = (Fulfilled {| HealthRecord.status := "unhealthy";
                    HealthRecord.model := None;
                    HealthRecord.dimension := None;
                    HealthRecord.initialized := None;
                    HealthRecord.error := Some (message e);
                    HealthRecord.timestamp := now W |}, s1).
Proof.
  intros H. apply initialize_rejected_again in H.
  assert (Hdocs : forall texts,
            embedDocuments W texts s1 = (Rejected (documents_error e), s1)).
  { intros texts. pose proof (embedDocuments_cases W texts s1) as Hc.
    by rewrite H in Hc. }
  split_and!.
  - exact Hdocs.
  - intros text. unfold embedQuery, try_catch, bind. by rewrite Hdocs.
  - unfold getEmbeddingDimension, try_catch, bind. by rewrite H.
  - unfold healthCheck, try_catch, bind. by rewrite H.
Qed.

Lemma failed_initialization_fails_every_method_witness :
  (forall texts,
     embedDocuments Fixtures.offline texts Fixtures.failed
       = (Rejected
            (documents_error
               (new_Error "Failed to initialize embedding model: fetch failed")),
          Fixtures.failed)) /\
  (forall text,
     embedQuery Fixtures.offline text Fixtures.failed
       = (Rejected
            (query_error
               (documents_error
                  (new_Error
                     "Failed to initialize embedding model: fetch failed"))),
          Fixtures.failed)) /\
  getEmbeddingDimension Fixtures.offline Fixtures.failed
    = (Rejected
         (dimension_error
            (new_Error "Failed to initialize embedding model: fetch failed")),
       Fixtures.failed) /\
  healthCheck Fixtures.offline Fixtures.failed
    = (Fulfilled
         {| HealthRecord.status := "unhealthy";
            HealthRecord.model := None;
            HealthRecord.dimension := None;
            HealthRecord.initialized := None;
            HealthRecord.error :=
              Some "Failed to initialize embedding model: fetch failed";
            HealthRecord.timestamp := now Fixtures.offline |},
       Fixtures.failed).
Proof.
  apply (failed_initialization_fails_every_method Fixtures.offline
           Fixtures.fresh).
  reflexivity.
Defined.

(** X5.  On a ready service whose cached dimension does not count,
    [getEmbeddingDimension] calls the model once, on ['test'].  When the
    model gives a vector, its length is returned and cached; when the model
    rejects, the cache is left as it was and the error carries the four
    prefixes before the message of the model. *)
Theorem getEmbeddingDimension_probes_once W s m :
  isInitialized s = true -> truthy (_cachedDimension s) = false ->
  model s = Some m ->
  getEmbeddingDimension W s =
    match m "test" with
    | Fulfilled result =>
        (Fulfilled (length (data result)),
         set_cachedDimension (Some (length (data result)))
           (set_inferred (inferred s ++ ["test"]) s))
    | Rejected thrown =>
        (Rejected
           (new_Error
              ("Failed to get embedding dimension: Failed to generate query embedding: Failed to generate embeddings: Failed to embed text: "
                 +:+ message thrown)),
         set_inferred (inferred s ++ ["test"]) s)
    end.
Proof.
  intros Hi Hc Hm. rewrite (getEmbeddingDimension_ready_uncached W s Hi Hc).
  rewrite Hm. unfold embed_text. by destruct (m "test").
Qed.

Lemma getEmbeddingDimension_probes_once_witness :
  getEmbeddingDimension Fixtures.online Fixtures.ready
    = (Fulfilled 2, Fixtures.measured).
Proof.
  apply (getEmbeddingDimension_probes_once Fixtures.online Fixtures.ready
           Fixtures.unit_vector); reflexivity.
Defined.

(** X6.  In a well-formed state an error of [getEmbeddingDimension] is of
    one of two kinds: the error [initialize] was rejected with, or the error
    of the model on ['test'], under the prefixes of the methods it went
    through.  The [TypeError] of reading [length] of [undefined] and the
    empty-input error never show. *)
Theorem getEmbeddingDimension_errors W s e s' :
  well_formed s ->
  getEmbeddingDimension W s = (Rejected e, s') ->
  (exists caught,
     fst (initialize W s) = Rejected caught /\
     e = new_Error ("Failed to get embedding dimension: " +:+ message caught)) \/
  (exists thrown,
     fst (initialize W s) = Fulfilled tt /\
     embed_text (model s') "test" = Rejected (text_error thrown) /\
     e = new_Error
           ("Failed to get embedding dimension: Failed to generate query embedding: Failed to generate embeddings: Failed to embed text: "
              +:+ message thrown)).
Proof.
  intros Hwf H.
  destruct (initialize W s) as [[[]|c] s1] eqn:Hinit.
  - right.
    destruct (initialize_fulfilled W _ _ Hwf Hinit) as (Hi1 & _ & Hagain).
    assert (Hsame : getEmbeddingDimension W s = getEmbeddingDimension W s1).
    { unfold getEmbeddingDimension, try_catch, bind. by rewrite Hinit, Hagain. }
    rewrite Hsame in H.
    destruct (truthy (_cachedDimension s1)) eqn:Hc.
    + unfold getEmbeddingDimension, try_catch, bind, get, ret in H.
      rewrite Hagain, Hc in H. done.
    + rewrite (getEmbeddingDimension_ready_uncached W s1 Hi1 Hc) in H.
      destruct (embed_text (model s1) "test") as [v|e0] eqn:He; [done|].
      injection H as <- <-.
      apply embed_text_rejected in He as Hshape.
      destruct Hshape as (thrown & -> & _).
      exists thrown. split_and!; [done | exact He | reflexivity].
  - left. exists c. split; [done|].
    unfold getEmbeddingDimension, try_catch, bind, throw in H.
    rewrite Hinit in H. by injection H as <- _.
Qed.

Lemma getEmbeddingDimension_errors_witness :
  (exists caught,
     fst (initialize Fixtures.offline Fixtures.fresh) = Rejected caught /\
     new_Error
       "Failed to get embedding dimension: Failed to initialize embedding model: fetch failed"
     = new_Error ("Failed to get embedding dimension: " +:+ message caught)) \/
  (exists thrown,
     fst (initialize Fixtures.offline Fixtures.fresh) = Fulfilled tt /\
     embed_text (model Fixtures.failed) "test"
       = Rejected (text_error thrown) /\
     new_Error
       "Failed to get embedding dimension: Failed to initialize embedding model: fetch failed"
     = new_Error
         ("Failed to get embedding dimension: Failed to generate query embedding: Failed to generate embeddings: Failed to embed text: "
            +:+ message thrown)).
Proof.
  apply (getEmbeddingDimension_errors Fixtures.offline Fixtures.fresh).
  - constructor; simpl; discriminate.
  - reflexivity.
Defined.



(** X8.  A dimension of 0 is cached and never served from the cache,
    [0] being falsy: with a model whose vector for ['test'] is empty, each
    of any number of calls in a row calls the model again and returns 0. *)
Theorem zero_dimension_is_probed_every_time W s m result n :
  isInitialized s = true -> truthy (_cachedDimension s) = false ->
  model s = Some m -> m "test" = Fulfilled result -> data result = [] ->
  inferred (Nat.iter n (fun s => snd (getEmbeddingDimension W s)) s)
    = inferred s ++ replicate n "test" /\
  fst (getEmbeddingDimension W
         (Nat.iter n (fun s => snd (getEmbeddingDimension W s)) s))
    = Fulfilled 0.
Proof.
  intros Hi Hc Hm Hr Hd.
  set (after := Nat.iter n (fun s => snd (getEmbeddingDimension W s)) s).
  assert (H : isInitialized after = true /\
              truthy (_cachedDimension after) = false /\
              model after = Some m /\
              inferred after = inferred s ++ replicate n "test").
  { subst after. induction n as [|n (Hi' & Hc' & Hm' & Hinf)]; simpl.
    - by rewrite app_nil_r.
    - rewrite (getEmbeddingDimension_ready_uncached W _ Hi' Hc').
      unfold embed_text. rewrite Hm', Hr, Hd. simpl.
      split_and!; try done. rewrite Hinf, <- app_assoc. f_equal.
      change ("test" :: replicate n "test") with (replicate (S n) "test").
      by rewrite replicate_S_end. }
  destruct H as (Hi' & Hc' & Hm' & Hinf). split; [done|].
  rewrite (getEmbeddingDimension_ready_uncached W _ Hi' Hc').
  unfold embed_text. by rewrite Hm', Hr, Hd.
Qed.

Lemma zero_dimension_is_probed_every_time_witness :
  inferred (Nat.iter 3
              (fun s => snd (getEmbeddingDimension Fixtures.online s))
              Fixtures.ready_hollow)
    = inferred Fixtures.ready_hollow ++ replicate 3 "test" /\
  fst (getEmbeddingDimension Fixtures.online
         (Nat.iter 3
            (fun s => snd (getEmbeddingDimension Fixtures.online s))
            Fixtures.ready_hollow))
    = Fulfilled 0.
Proof.
  apply (zero_dimension_is_probed_every_time Fixtures.online
           Fixtures.ready_hollow Fixtures.hollow (mkTensor []) 3);
    reflexivity.
Defined.

End SequentialMore.

(** * More about calls in flight *)

Module EventLoopMore.
Import EventLoop EventLoopFacts.

Lemma sum_list_with_insert {A} (f : A -> nat) (l : list A) i x y :
  l !! i = Some x ->
  sum_list_with f (<[i:=y]> l) + f x = sum_list_with f l + f y.
Proof.
  revert i. induction l as [|a l IH]; intros [|i]; simpl; try done.
  - intros [= ->]. lia.
  - intros Hi. specialize (IH i Hi). lia.
Qed.

Lemma probed_le_dimension_call cs :
  sum_list_with probed cs <= sum_list_with dimension_call cs.
Proof.
  induction cs as [|[h|[h|h|p|o]] cs IH]; simpl; lia.
Qed.

(** [initialize] leaves the model, the flag, the cache and the calls. *)
Lemma initialize_fields l :
  model (this (snd (initialize l))) = model (this l) /\
  isInitialized (this (snd (initialize l))) = isInitialized (this l) /\
  _cachedDimension (this (snd (initialize l))) = _cachedDimension (this l) /\
  inferred (this (snd (initialize l))) = inferred (this l) /\
  calls (snd (initialize l)) = calls l.
Proof.
  unfold initialize. destruct (isInitialized (this l)) eqn:Hi; [done|].
  by destruct (initializationPromise (this l)).
Qed.

Lemma stage_fits_same l l' c :
  model (this l') = model (this l) ->
  isInitialized (this l') = isInitialized (this l) ->
  stage_fits l c -> stage_fits l' c.
Proof.
  intros Hm Hi. unfold stage_fits, probe_dimension. rewrite Hm, Hi. done.
Qed.

Lemma probe_invariant_same l l' :
  model (this l') = model (this l) ->
  isInitialized (this l') = isInitialized (this l) ->
  _cachedDimension (this l') = _cachedDimension (this l) ->
  inferred (this l') = inferred (this l) ->
  calls l' = calls l ->
  probe_invariant l -> probe_invariant l'.
Proof.
  intros Hm Hi Hc Hinf Hcs [H1 H2 H3 H4]. constructor.
  - rewrite Hm, Hi, Hc, Hinf. done.
  - rewrite Hcs. intros c Hin. by apply (stage_fits_same l), H2.
  - unfold probe_dimension. rewrite Hm, Hc. done.
  - by rewrite Hinf, Hcs.
Qed.

Lemma probe_invariant_initialize l :
  probe_invariant l -> probe_invariant (snd (initialize l)).
Proof.
  destruct (initialize_fields l) as (Hm & Hi & Hc & Hinf & Hcs).
  by apply probe_invariant_same.
Qed.

Lemma probe_invariant_add_call l c :
  probe_invariant l -> stage_fits l c -> probed c = 0 ->
  probe_invariant (mkLoop (this l) (promises l) (calls l ++ [c])).
Proof.
  intros [H1 H2 H3 H4] Hc Hp. constructor; simpl; try done.
  - intros c' Hin. apply elem_of_app in Hin as [Hin|Hin].
    + by apply (stage_fits_same l), H2.
    + apply list_elem_of_singleton in Hin as ->.
      by apply (stage_fits_same l).
  - rewrite sum_list_with_app. simpl. lia.
Qed.

Lemma ready_when_observed l h :
  invariant l -> good_handle l h -> observed l h = Some (Fulfilled tt) ->
  isInitialized (this l) = true.
Proof.
  intros Hinv Hh Ho. apply (observed_good l h _ Hinv Hh) in Ho.
  by apply Hinv.
Qed.

Lemma probe_invariant_step ev l l' :
  invariant l -> probe_invariant l -> step ev l = Some l' ->
  probe_invariant l'.
Proof.
  intros Hinv Hpi. destruct ev as [| |p loaded|c]; simpl.
  - pose proof (probe_invariant_initialize l Hpi) as Hpi'.
    destruct (initialize l) as [h l1]; simpl in *. intros [= <-].
    by apply probe_invariant_add_call.
  - unfold getEmbeddingDimension_calls.
    pose proof (probe_invariant_initialize l Hpi) as Hpi'.
    destruct (initialize l) as [h l1]; simpl in *. intros [= <-].
    by apply probe_invariant_add_call.
  - destruct (promises l !! p) as [[o|]|] eqn:Hp; try done. intros [= <-].
    assert (p = 0) as ->.
    { apply lookup_lt_Some in Hp. destruct Hinv as [_ Hprom _ _ _].
      destruct (initializationPromise (this l)); [lia|].
      rewrite Hprom in Hp. simpl in Hp. lia. }
    assert (Hi : isInitialized (this l) = false).
    { destruct (isInitialized (this l)) eqn:Hi; [|done].
      apply Hinv in Hi. congruence. }
    destruct Hpi as [H1 H2 H3 H4]. destruct (H1 Hi) as (Hm & Hc & Hinf).
    destruct loaded as [m|e]; simpl.
    + constructor; simpl; try done.
      * intros c Hin. specialize (H2 c Hin).
        destruct c as [h|[h|h|pending|[d|e]]]; simpl in *; try done;
          try (destruct H2; congruence); congruence.
      * rewrite Hc. done.
    + constructor; simpl; try done.
  - destruct (calls l !! c) as [[h|st]|] eqn:Hc; try done.
    destruct (getEmbeddingDimension_resumes st l) as [[st' l1]|] eqn:Hres;
      [|done].
    intros [= <-].
    assert (Hin : DimensionCall st ∈ calls l)
      by (apply list_elem_of_lookup; eauto).
    pose proof Hpi as [H1 H2 H3 H4].
    pose proof (H2 _ Hin) as Hst.
    assert (Hgoal :
              (isInitialized (this l1) = false ->
               model (this l1) = None /\ _cachedDimension (this l1) = None /\
               inferred (this l1) = []) /\
              (forall c', c' ∈ calls l -> stage_fits l1 c') /\
              (forall d, _cachedDimension (this l1) = Some d ->
                         probe_dimension l1 = Some d) /\
              calls l1 = calls l /\
              stage_fits l1 (DimensionCall st') /\
              length (inferred (this l1)) + probed (DimensionCall st)
                <= sum_list_with probed (calls l)
                   + probed (DimensionCall st')).
    { destruct st as [h|h|pending|o]; simpl in Hres.
      - destruct (observed l h) as [[[]|e]|] eqn:Ho; try done.
        + assert (Hi : isInitialized (this l) = true).
          { apply (ready_when_observed l h); [done| |done].
            by apply (inv_calls l Hinv (DimensionCall (AtInitialize h))). }
          destruct (truthy _) eqn:Ht.
          * injection Hres as <- <-. split_and!; try done; [|simpl; lia].
            simpl. split; [done|]. apply H3.
            by destruct (_cachedDimension (this l)) as [[|d]|].
          * pose proof (probe_invariant_initialize l Hpi) as [H1' H2' H3' H4'].
            destruct (initialize_fields l) as (Hm' & Hi' & Hc' & Hinf' & Hcs').
            destruct (initialize l) as [h' l2]; simpl in *.
            injection Hres as <- <-.
            split_and!; try done; [by rewrite <- Hcs' | congruence |].
            rewrite Hinf'. simpl. lia.
        + injection Hres as <- <-. split_and!; try done. simpl. lia.
      - simpl in Hst.
        destruct (observed l h) as [[[]|e]|] eqn:Ho; try done.
        + injection Hres as <- <-. simpl. split_and!; try done;
            [congruence | rewrite length_app; simpl; lia].
        + injection Hres as <- <-. split_and!; try done. simpl. lia.
      - simpl in Hst. destruct Hst as [Hi Hpend].
        destruct pending as [v|e]; injection Hres as <- <-.
        + assert (Hd : probe_dimension l = Some (length v)).
          { unfold probe_dimension. by rewrite <- Hpend. }
          simpl. split_and!; try done;
            [congruence | by intros d [= <-] | lia].
        + split_and!; try done. simpl. lia.
      - done. }
    destruct Hgoal as (G1 & G2 & G3 & Hcs & Hfit & Hcount).
    constructor; simpl; try done.
    + intros c' Hin'. apply list_elem_of_lookup in Hin' as [i Hi].
      destruct (decide (c = i)) as [->|Hne].
      * rewrite list_lookup_insert_eq in Hi
          by (rewrite Hcs; by eapply lookup_lt_Some).
        injection Hi as <-. by apply (stage_fits_same l1).
      * rewrite list_lookup_insert_ne in Hi by done.
        apply (stage_fits_same l1); [done|done|].
        apply G2. rewrite <- Hcs. apply list_elem_of_lookup. eauto.
    + rewrite Hcs.
      pose proof (sum_list_with_insert probed (calls l) c _
                    (DimensionCall st') Hc). lia.
Qed.

Lemma probe_invariant_start name : probe_invariant (start name).
Proof.
  constructor; simpl; try done. intros c Hc. by apply elem_of_nil in Hc.
Qed.

Lemma probe_invariant_run evs : forall l l',
  invariant l -> probe_invariant l -> run evs l = Some l' ->
  probe_invariant l'.
Proof.
  induction evs as [|ev evs IH]; intros l l' Hinv Hpi; simpl.
  - by intros [= <-].
  - destruct (step ev l) as [l1|] eqn:Hstep; [|done].
    apply IH; [by eapply invariant_step | by eapply probe_invariant_step].
Qed.

Lemma probe_invariant_reachable name evs l :
  run evs (start name) = Some l -> probe_invariant l.
Proof.
  apply probe_invariant_run;
    [apply invariant_start | apply probe_invariant_start].
Qed.

(** X9.  However the calls interleave, every call of
    [getEmbeddingDimension] that is fulfilled returns the length of the
    vector the loaded model gives for ['test'], and the cache holds nothing
    else: no two calls return different dimensions. *)
Theorem dimension_calls_agree name evs l d :
  run evs (start name) = Some l ->
  (DimensionCall (Finished (Fulfilled d)) ∈ calls l \/
   _cachedDimension (this l) = Some d) ->
  exists m result,
    model (this l) = Some m /\ m "test" = Fulfilled result /\
    d = length (data result).
Proof.
  intros Hrun Hd.
  pose proof (probe_invariant_reachable _ _ _ Hrun) as [_ H2 H3 _].
  assert (Hp : probe_dimension l = Some d).
  { destruct Hd as [Hd|Hd]; [|by apply H3].
    specialize (H2 _ Hd). simpl in H2. by destruct H2. }
  unfold probe_dimension in Hp.
  destruct (embed_text (model (this l)) "test") as [v|e] eqn:He; [|done].
  injection Hp as <-.
  apply SequentialFacts.embed_text_fulfilled in He as (m & r & Hm & Hr & ->).
  eauto.
Qed.

Lemma dimension_calls_agree_witness :
  exists m result,
    model (this Fixtures.after_two_dimension_calls) = Some m /\
    m "test" = Fulfilled result /\ 2 = length (data result).
Proof.
  apply (dimension_calls_agree None Fixtures.two_dimension_calls
           Fixtures.after_two_dimension_calls 2).
  - vm_compute. reflexivity.
  - right. reflexivity.
Defined.

(** X10.  However the calls interleave, as long as the service is not
    ready the model has not been called, no dimension is cached and no call
    of [getEmbeddingDimension] has been fulfilled. *)
Theorem model_not_called_before_ready name evs l :
  run evs (start name) = Some l ->
  isInitialized (this l) = false ->
  inferred (this l) = [] /\ _cachedDimension (this l) = None /\
  forall c d, c ∈ calls l -> c <> DimensionCall (Finished (Fulfilled d)).
Proof.
  intros Hrun Hi.
  pose proof (probe_invariant_reachable _ _ _ Hrun) as [H1 H2 _ _].
  destruct (H1 Hi) as (_ & Hc & Hinf). split_and!; try done.
  intros c d Hin ->. specialize (H2 _ Hin). simpl in H2.
  destruct H2. congruence.
Qed.

Lemma model_not_called_before_ready_witness :
  inferred (this Fixtures.load_pending) = [] /\
  _cachedDimension (this Fixtures.load_pending) = None /\
  forall c d, c ∈ calls Fixtures.load_pending ->
              c <> DimensionCall (Finished (Fulfilled d)).
Proof.
  apply (model_not_called_before_ready None Fixtures.two_callers
           Fixtures.load_pending); reflexivity.
Defined.

(** X11.  However the calls interleave, the model is called at most once
    for each call of [getEmbeddingDimension] made. *)
Theorem one_probe_per_call_at_most name evs l :
  run evs (start name) = Some l ->
  length (inferred (this l)) <= sum_list_with dimension_call (calls l).
Proof.
  intros Hrun.
  pose proof (probe_invariant_reachable _ _ _ Hrun) as [_ _ _ H4].
  pose proof (probed_le_dimension_call (calls l)). lia.
Qed.

Lemma one_probe_per_call_at_most_witness :
  length (inferred (this Fixtures.after_two_dimension_calls))
    <= sum_list_with dimension_call (calls Fixtures.after_two_dimension_calls).
Proof.
  apply (one_probe_per_call_at_most None Fixtures.two_dimension_calls).
  vm_compute. reflexivity.
Defined.

(** X12.  Once the load has settled, no call of [getEmbeddingDimension]
    waits for ever: every call that has not ended can go on. *)
Theorem settled_load_lets_calls_proceed name evs l o c st :
  run evs (start name) = Some l ->
  promises l !! 0 = Some (Some o) ->
  calls l !! c = Some (DimensionCall st) ->
  (forall r, st <> Finished r) ->
  is_Some (step (Resume c) l).
Proof.
  intros Hrun Ho Hc Hst.
  pose proof (invariant_reachable _ _ _ Hrun) as Hinv.
  assert (Hobs : forall h, awaiting (DimensionCall st) = Some h ->
                           observed l h = Some o).
  { intros h Hh.
    assert (Hgood : good_handle l h).
    { apply (inv_calls l Hinv (DimensionCall st)); [|done].
      apply list_elem_of_lookup. eauto. }
    destruct h as [|p]; simpl in *.
    - f_equal. apply Hinv in Hgood. congruence.
    - destruct Hgood as [-> _]. by rewrite Ho. }
  simpl. rewrite Hc.
  destruct st as [h|h|pending|r]; simpl.
  - rewrite (Hobs h eq_refl). destruct o as [[]|e]; [|done].
    destruct (truthy _); [done|]. by destruct (initialize l).
  - rewrite (Hobs h eq_refl). by destruct o as [[]|e].
  - by destruct pending.
  - by destruct (Hst r).
Qed.

Lemma settled_load_lets_calls_proceed_witness :
  is_Some (step (Resume 1) Fixtures.dimension_call_waiting).
Proof.
  apply (settled_load_lets_calls_proceed None Fixtures.dimension_call_made
           Fixtures.dimension_call_waiting (Fulfilled tt) 1
           (AtInitialize Immediately)).
  - vm_compute. reflexivity.
  - reflexivity.
  - reflexivity.
  - discriminate.
Defined.

End EventLoopMore.

(** * The chat route *)

Module ChatRouteFacts.
Import ChatRoute.

Lemma NextResponse_json_accepts body status :
  representable status = true ->
  NextResponse_json body status = Fulfilled (mkResponse status body).
Proof.
  unfold NextResponse_json, representable. intros H.
  apply andb_true_iff in H as [H Hnull].
  apply andb_true_iff in H as [H1 H2].
  apply Nat.leb_le in H1, H2. apply negb_true_iff in Hnull.
  replace (status <? 200) with false by (symmetry; apply Nat.ltb_ge; lia).
  replace (599 <? status) with false by (symmetry; apply Nat.ltb_ge; lia).
  by rewrite Hnull.
Qed.

Lemma NextResponse_json_refuses body status :
  representable status = false ->
  exists e, NextResponse_json body status = Rejected e /\
            String.eqb (error_name e) "AbortError" = false.
Proof.
  unfold NextResponse_json, representable. intros H.
  destruct (status <? 200) eqn:H1; simpl; [eauto|].
  destruct (599 <? status) eqn:H2; simpl; [eauto|].
  destruct (null_body_status status); simpl; [eauto|].
  apply Nat.ltb_ge in H1, H2.
  replace (200 <=? status) with true in H by (symmetry; apply Nat.leb_le; lia).
  replace (status <=? 599) with true in H by (symmetry; apply Nat.leb_le; lia).
  done.
Qed.

Lemma not_ok_not_200 d : ok d = false -> downstream_status d <> 200.
Proof. unfold ok. intros H Heq. rewrite Heq in H. done. Qed.

Lemma message_of_not_abort error e :
  message_of error = Rejected e ->
  String.eqb (error_name e) "AbortError" = false.
Proof. destruct error; try done. by intros [= <-]. Qed.

Ltac route_unfold :=
  unfold handle, POST, try_catch, bind, perform, pure, throw, forwarded in *;
  simpl in *.

Ltac route_case :=
  match goal with
  | |- context [request_json ?n] => destruct (request_json n) eqn:?
  | |- context [fetch ?n ?r] => destruct (fetch n r) eqn:?
  | |- context [negb (ok ?d)] => destruct (ok d) eqn:?
  | |- context [downstream_json ?d] => destruct (downstream_json d) eqn:?
  | |- context [message_of ?e] => destruct (message_of e) eqn:?
  | |- context [String.eqb (error_name ?e) "AbortError"] =>
      destruct (String.eqb (error_name e) "AbortError") eqn:?
  | |- context [NextResponse_json ?b (downstream_status ?d)] =>
      destruct (NextResponse_json b (downstream_status d)) eqn:?
  end.

Ltac route_cases := route_unfold; repeat (route_case; simpl).

(** The handler always answers, in one of five ways. *)
Lemma handle_answers net id doc :
  exists r log,
    handle net id doc = (Fulfilled r, log) /\
    (r = unauthorized \/ r = timed_out \/ r = internal_error \/
     (exists userId body d,
        id = Some userId /\ request_json net = Fulfilled body /\
        fetch net (forwarded net userId doc body) = Fulfilled d /\
        ((ok d = true /\ downstream_json d = Fulfilled (ChatRoute.body r) /\
          status r = 200) \/
         (ok d = false /\
          exists error reason,
            downstream_json d = Fulfilled error /\
            message_of error = Fulfilled reason /\
            r = passed_on d reason)))).
Proof.
  destruct id as [[|c rest]|];
    [by eexists _, _; split; [reflexivity|left] | |
     by eexists _, _; split; [reflexivity|left]].
  unfold handle, POST, try_catch, bind, perform, pure, throw. simpl.
  destruct (request_json net) as [b|e] eqn:Hb; simpl;
    [|by eexists _, _; split; [reflexivity|right; right; left]].
  destruct (fetch net _) as [d|e] eqn:Hf; simpl.
  - destruct (ok d) eqn:Hok; simpl.
    + destruct (downstream_json d) as [data|e] eqn:Hd; simpl.
      * eexists _, _. split; [reflexivity|]. right; right; right.
        exists (String c rest), b, d. split_and!; try done. by left.
      * destruct (String.eqb (error_name e) "AbortError"); simpl;
          eexists _, _; (split; [reflexivity|]); [right; by left|].
        right; right; by left.
    + destruct (downstream_json d) as [error|e] eqn:Hd; simpl.
      * destruct (message_of error) as [reason|e] eqn:Hm; simpl.
        -- destruct (NextResponse_json _ (downstream_status d))
             as [r|e] eqn:Hr; simpl.
           ++ eexists _, _. split; [reflexivity|]. right; right; right.
              exists (String c rest), b, d. split_and!; try done. right.
              split; [done|]. exists error, reason. split_and!; try done.
              unfold NextResponse_json in Hr.
              repeat match type of Hr with
                     | context [if ?x then _ else _] => destruct x
                     end; try done. by injection Hr as <-.
           ++ destruct (String.eqb (error_name e) "AbortError"); simpl;
                eexists _, _; (split; [reflexivity|]); [right; by left|].
              right; right; by left.
        -- destruct (String.eqb (error_name e) "AbortError"); simpl;
             eexists _, _; (split; [reflexivity|]); [right; by left|].
           right; right; by left.
      * destruct (String.eqb (error_name e) "AbortError"); simpl;
          eexists _, _; (split; [reflexivity|]); [right; by left|].
        right; right; by left.
  - destruct (String.eqb (error_name e) "AbortError"); simpl;
      eexists _, _; (split; [reflexivity|]); [right; by left|].
    right; right; by left.
Qed.

(** X13.  Without a user id (no [x-user-id] header, or an empty one) the
    handler answers 401 and does nothing else: it reads no body, arms no
    timer and sends no request.  With a user id the first thing it does is
    read the body. *)
Theorem POST_requires_user_id net id doc :
  ((id = None \/ id = Some "") ->
   handle net id doc = (Fulfilled unauthorized, [])) /\
  (forall userId, id = Some userId -> userId <> "" ->
   exists rest, snd (handle net id doc) = ReadBody :: rest).
Proof.
  split.
  - by intros [->| ->].
  - intros userId -> Hne. destruct userId as [|c rest]; [done|].
    route_cases; eexists; reflexivity.
Qed.

Lemma POST_requires_user_id_witness :
  handle Fixtures.answering (Some "") "doc-7" = (Fulfilled unauthorized, []) /\
  exists rest,
    snd (handle Fixtures.answering (Some "u-1") "doc-7") = ReadBody :: rest.
Proof.
  destruct (POST_requires_user_id Fixtures.answering (Some "") "doc-7")
    as [Hnone _].
  destruct (POST_requires_user_id Fixtures.answering (Some "u-1") "doc-7")
    as [_ Hsome].
  split.
  - apply Hnone. right. reflexivity.
  - apply (Hsome "u-1"); [reflexivity | discriminate].
Defined.

(** X14.  The handler never throws: it always answers, and the status of
    its answer is 200, 401, 408 or 500, or else the status of an answer of
    the PDF service that was not ok. *)
Theorem POST_always_answers net id doc :
  exists r log,
    handle net id doc = (Fulfilled r, log) /\
    (status r = 200 \/ status r = 401 \/ status r = 408 \/ status r = 500 \/
     exists userId body d,
       id = Some userId /\ request_json net = Fulfilled body /\
       fetch net (forwarded net userId doc body) = Fulfilled d /\
       ok d = false /\ status r = downstream_status d).
Proof.
  destruct (handle_answers net id doc) as (r & log & Heq & Hkind).
  exists r, log. split; [done|].
  destruct Hkind as [->|[->|[->|(u & b & d & Hid & Hb & Hf & Hd)]]].
  - right; by left.
  - right; right; by left.
  - right; right; right; by left.
  - destruct Hd as [(_ & _ & Hs)|(Hok & error & reason & _ & _ & ->)].
    + by left.
    + right; right; right; right. exists u, b, d. by split_and!.
Qed.

(** X15.  The answer has status 200 exactly when the caller gave a user
    id, the body was JSON, and the PDF service answered with a status from
    200 to 299 and a JSON body; that body is then the body of the answer,
    whatever the 2xx status was. *)
Theorem POST_answers_200_only_on_success net id doc r :
  fst (handle net id doc) = Fulfilled r ->
  status r = 200 <->
  exists userId body d,
    id = Some userId /\ userId <> "" /\
    request_json net = Fulfilled body /\
    fetch net (forwarded net userId doc body) = Fulfilled d /\
    ok d = true /\ downstream_json d = Fulfilled (ChatRoute.body r).
Proof.
  intros Hr. split.
  - intros Hs.
    destruct (handle_answers net id doc) as (r' & log & Heq & Hkind).
    rewrite Heq in Hr. injection Hr as ->.
    destruct Hkind as [->|[->|[->|(u & b & d & -> & Hb & Hf & Hd)]]];
      try done.
    destruct Hd as [(Hok & Hd & _)|(Hok & error & reason & _ & _ & ->)].
    + exists u, b, d. split_and!; try done. intros ->.
      cbv in Heq. injection Heq as <- _. done.
    + simpl in Hs. by apply not_ok_not_200 in Hok.
  - intros (u & b & d & -> & Hne & Hb & Hf & Hok & Hd).
    destruct u as [|c rest]; [done|]. revert Hr. route_unfold.
    rewrite Hb. simpl. rewrite Hf. simpl. rewrite Hok. simpl.
    rewrite Hd. simpl. by intros [= <-].
Qed.

Lemma POST_answers_200_only_on_success_witness :
  status
    (mkResponse 200 (JObject [("answer", JString "Promises.")])) = 200 <->
  exists userId body d,
    Some "u-1" = Some userId /\ userId <> "" /\
    request_json Fixtures.answering = Fulfilled body /\
    fetch Fixtures.answering
      (forwarded Fixtures.answering userId "doc-7" body) = Fulfilled d /\
    ok d = true /\
    downstream_json d
      = Fulfilled
          (ChatRoute.body
             (mkResponse 200 (JObject [("answer", JString "Promises.")]))).
Proof.
  apply (POST_answers_200_only_on_success Fixtures.answering (Some "u-1")
           "doc-7").
  reflexivity.
Defined.

(** X16.  When [fetch] fails, the answer is 408 if the failure is an
    [AbortError] (the timer fired) and 500 'Internal server error'
    otherwise; the timer is cleared in both cases and the message of the
    failure is not given to the caller. *)
Theorem POST_when_fetch_fails net userId doc body e :
  userId <> "" ->
  request_json net = Fulfilled body ->
  fetch net (forwarded net userId doc body) = Rejected e ->
  handle net (Some userId) doc =
    if String.eqb (error_name e) "AbortError"
    then (Fulfilled timed_out,
          [ReadBody; SetTimeout 60000; Fetch (forwarded net userId doc body);
           ClearTimeout])
    else (Fulfilled internal_error,
          [ReadBody; SetTimeout 60000; Fetch (forwarded net userId doc body);
           ClearTimeout; ConsoleError]).
Proof.
  intros Hne Hb Hf. destruct userId as [|c rest]; [done|].
  route_unfold. rewrite Hb. simpl. rewrite Hf. simpl.
  by destruct (String.eqb (error_name e) "AbortError").
Qed.

Lemma POST_when_fetch_fails_witness :
  handle Fixtures.too_slow (Some "u-1") "doc-7" =
    (Fulfilled timed_out,
     [ReadBody; SetTimeout 60000;
      Fetch (forwarded Fixtures.too_slow "u-1" "doc-7" Fixtures.question);
      ClearTimeout]).
Proof.
  apply (POST_when_fetch_fails Fixtures.too_slow "u-1" "doc-7"
           Fixtures.question
           (mkJsError "AbortError" "This operation was aborted"));
    [discriminate | reflexivity | reflexivity].
Defined.

(** X17.  When the PDF service answers with a status that is not ok (and
    that a response with a body can have) and a JSON body other than
    [null], the answer has that status, and as its error the [message] of
    that body if it has one that counts as true, else 'Failed to process
    chat request'. *)
Theorem POST_passes_downstream_error net userId doc body d error reason :
  userId <> "" ->
  request_json net = Fulfilled body ->
  fetch net (forwarded net userId doc body) = Fulfilled d ->
  ok d = false ->
  representable (downstream_status d) = true ->
  downstream_json d = Fulfilled error ->
  message_of error = Fulfilled reason ->
  handle net (Some userId) doc =
    (Fulfilled
       (mkResponse (downstream_status d)
          (JObject
             [("error",
               or_else reason (JString "Failed to process chat request"))])),
     [ReadBody; SetTimeout 60000; Fetch (forwarded net userId doc body);
      ClearTimeout; ReadDownstreamBody]).
Proof.
  intros Hne Hb Hf Hok Hrep Hd Hm. destruct userId as [|c rest]; [done|].
  route_unfold. rewrite Hb. simpl. rewrite Hf. simpl. rewrite Hok. simpl.
  rewrite Hd. simpl. rewrite Hm. simpl.
  by rewrite (NextResponse_json_accepts _ _ Hrep).
Qed.

Lemma POST_passes_downstream_error_witness :
  handle Fixtures.not_found (Some "u-1") "doc-7" =
    (Fulfilled
       (mkResponse 404 (JObject [("error", JString "Document not found")])),
     [ReadBody; SetTimeout 60000;
      Fetch (forwarded Fixtures.not_found "u-1" "doc-7" Fixtures.question);
      ClearTimeout; ReadDownstreamBody]).
Proof.
  apply (POST_passes_downstream_error Fixtures.not_found "u-1" "doc-7"
           Fixtures.question
           (mkDownstream 404
              (Fulfilled (JObject [("message", JString "Document not found")])))
           (JObject [("message", JString "Document not found")])
           (Some (JString "Document not found")));
    [discriminate | reflexivity | reflexivity | reflexivity | reflexivity
    | reflexivity | reflexivity].
Defined.

(** X18.  When the body of the request is not JSON, the answer is 500
    'Internal server error', and neither a timer nor a request was made. *)
Theorem POST_unreadable_body net userId doc e :
  userId <> "" ->
  request_json net = Rejected e ->
  handle net (Some userId) doc
    = (Fulfilled internal_error, [ReadBody; ConsoleError]).
Proof.
  intros Hne Hb. destruct userId as [|c rest]; [done|].
  route_unfold. by rewrite Hb.
Qed.

Lemma POST_unreadable_body_witness :
  handle Fixtures.no_body (Some "u-1") "doc-7"
    = (Fulfilled internal_error, [ReadBody; ConsoleError]).
Proof.
  apply (POST_unreadable_body Fixtures.no_body "u-1" "doc-7"
           (mkJsError "SyntaxError" "Unexpected end of JSON input"));
    [discriminate | reflexivity].
Defined.

(** X19.  When the PDF service answers and the answer cannot be used, the
    caller gets 500 'Internal server error' whatever the status of the PDF
    service was: when its body is not JSON, when the status is not ok and
    the body is [null], and when the status is not ok and is one a response
    with a body cannot have (304, or outside 200..599). *)
Theorem POST_unusable_downstream_answer net userId doc body d :
  userId <> "" ->
  request_json net = Fulfilled body ->
  fetch net (forwarded net userId doc body) = Fulfilled d ->
  (exists e, downstream_json d = Rejected e /\
             String.eqb (error_name e) "AbortError" = false) \/
  (ok d = false /\ downstream_json d = Fulfilled JNull) \/
  (ok d = false /\ representable (downstream_status d) = false /\
   exists error, downstream_json d = Fulfilled error) ->
  handle net (Some userId) doc =
    (Fulfilled internal_error,
     [ReadBody; SetTimeout 60000; Fetch (forwarded net userId doc body);
      ClearTimeout; ReadDownstreamBody; ClearTimeout; ConsoleError]).
Proof.
  intros Hne Hb Hf Hcase. destruct userId as [|c rest]; [done|].
  route_unfold. rewrite Hb. simpl. rewrite Hf. simpl.
  destruct Hcase as [(e & Hd & He)|[(Hok & Hd)|(Hok & Hrep & error & Hd)]].
  - destruct (ok d); simpl; rewrite Hd; simpl; by rewrite He.
  - rewrite Hok. simpl. rewrite Hd. simpl. done.
  - rewrite Hok. simpl. rewrite Hd. simpl.
    destruct (message_of error) as [reason|e] eqn:Hm; simpl.
    + destruct (NextResponse_json_refuses
                  (error_body
                     (or_else reason (JString "Failed to process chat request")))
                  _ Hrep) as (e & -> & He).
      simpl. by rewrite He.
    + by rewrite (message_of_not_abort _ _ Hm).
Qed.

Lemma POST_unusable_downstream_answer_witness :
  handle Fixtures.garbled (Some "u-1") "doc-7" =
    (Fulfilled internal_error,
     [ReadBody; SetTimeout 60000;
      Fetch (forwarded Fixtures.garbled "u-1" "doc-7" Fixtures.question);
      ClearTimeout; ReadDownstreamBody; ClearTimeout; ConsoleError]).
Proof.
  apply (POST_unusable_downstream_answer Fixtures.garbled "u-1" "doc-7"
           Fixtures.question
           (mkDownstream 502
              (Rejected (mkJsError "SyntaxError" "Unexpected token < in JSON"))));
    [discriminate | reflexivity | reflexivity |].
  left. eexists. split; reflexivity.
Defined.

(** X20.  Whatever happens, the handler leaves no timer armed and sends at
    most one request; the request it sends goes to
    [<apiUrl>/pdf/<documentId>/chat] with the user id of the caller and the
    body it read. *)
Theorem POST_effects net id doc :
  armed (snd (handle net id doc)) 0 = 0 /\
  (fetched (snd (handle net id doc)) = [] \/
   exists userId body,
     id = Some userId /\ request_json net = Fulfilled body /\
     fetched (snd (handle net id doc)) = [forwarded net userId doc body]).
Proof.
  destruct id as [[|c rest]|]; [by split; [|left] | | by split; [|left]].
  route_cases; (split; [reflexivity|]);
    try (by left); right; eexists _, _; by split_and!.
Qed.

End ChatRouteFacts.
